(** * mathf: scalar math helpers over JavaScript numbers

    A shallow embedding of [src/index.ts].  A JavaScript [number] is an
    IEEE-754 binary64 value; it is modelled with the executable
    specification of floating-point arithmetic of the standard library
    ([SpecFloat], precision 53, maximal exponent 1024), so that every
    function below evaluates on concrete doubles exactly as the source
    does, rounding included.

    The file has three parts: the operators and built-ins of the language
    that the source uses (module [JS]), the functions of the source, and
    the proofs: a small theory of canonical doubles (exact normalisation,
    order, rounding), the 32-bit integer operations, and the properties
    of the functions. *)

From Stdlib Require Import ZArith Bool Lia.
From Stdlib Require Import Floats.SpecFloat.

Local Open Scope Z_scope.

(** ** JavaScript numbers *)

Module JS.

Definition prec : Z := 53.
Definition emax : Z := 1024.

(** The [number] type: signed zeros, infinities, NaN and finite values
    [(-1)^s * m * 2^e]. *)
Definition number : Type := spec_float.

Definition NaN : number := S754_nan.
Definition Infinity : number := S754_infinity false.

(** A well-formed double: the mantissa has at most 53 bits and the
    exponent is the canonical one. *)
Definition is_double (x : number) : bool := valid_binary prec emax x.

(** The double nearest to [m * 2^e] (ties to even). *)
Definition dyadic (m e : Z) : number := binary_normalize prec emax m e false.

(** An integer literal, or an integer-valued intermediate result, as a
    number; exact up to [2^53]. *)
Definition of_int (z : Z) : number := dyadic z 0.

(** Arithmetic operators [+ - * /]. *)
Definition add : number -> number -> number := SFadd prec emax.
Definition sub : number -> number -> number := SFsub prec emax.
Definition mul : number -> number -> number := SFmul prec emax.
Definition div : number -> number -> number := SFdiv prec emax.

(** Relational operators [<], [>] and strict equality [===] on numbers:
    every comparison with NaN is false, and [+0 === -0]. *)
Definition lt (x y : number) : bool := SFltb x y.
Definition gt (x y : number) : bool := SFltb y x.
Definition ge (x y : number) : bool := SFleb y x.
Definition eq (x y : number) : bool := SFeqb x y.

(** The remainder operator [%]: the exact remainder of the truncating
    division, with the sign of the dividend. *)
Definition rem (n d : number) : number :=
  match n, d with
  | S754_nan, _ | _, S754_nan => S754_nan
  | S754_infinity _, _ => S754_nan
  | _, S754_zero _ => S754_nan
  | _, S754_infinity _ => n
  | S754_zero _, _ => n
  | S754_finite sn mn en, S754_finite _ md ed =>
      let e := Z.min en ed in
      let r := Z.rem (Z.shiftl (Zpos mn) (en - e)) (Z.shiftl (Zpos md) (ed - e)) in
      if r =? 0 then S754_zero sn
      else binary_normalize prec emax (cond_Zopp sn r) e false
  end.

(** The unary minus. *)
Definition neg : number -> number := SFopp.

(** [Math.abs], [Math.min], [Math.max]. *)
Definition Math_abs : number -> number := SFabs.

Definition is_negative_zero (x : number) : bool :=
  match x with S754_zero true => true | _ => false end.

Definition Math_min (a b : number) : number :=
  match SFcompare a b with
  | None => S754_nan
  | Some Lt => a
  | Some Gt => b
  | Some Eq => if is_negative_zero b then b else a
  end.

Definition Math_max (a b : number) : number :=
  match SFcompare a b with
  | None => S754_nan
  | Some Lt => b
  | Some Gt => a
  | Some Eq => if is_negative_zero a then b else a
  end.

(** [Math.ceil]: the least integral number not below [x]; a negative
    fraction above [-1] gives [-0]. *)
Definition Math_ceil (x : number) : number :=
  match x with
  | S754_finite s m (Zneg k) =>
      let n := - (Z.shiftr (- cond_Zopp s (Zpos m)) (Zpos k)) in
      if n =? 0 then S754_zero s else of_int n
  | _ => x
  end.

(** [Math.round]: the nearest integral number, ties toward [+Infinity];
    the sign of a zero result is the sign of [x]. *)
Definition Math_round (x : number) : number :=
  match x with
  | S754_finite s m (Zneg k) =>
      let n := Z.shiftr (2 * cond_Zopp s (Zpos m) + 2 ^ Zpos k) (Zpos k + 1) in
      if n =? 0 then S754_zero s else of_int n
  | _ => x
  end.

(** The integer part of a number, toward zero; 0 for NaN, zeros and
    infinities (the first step of ToInt32). *)
Definition truncate (x : number) : Z :=
  match x with
  | S754_finite s m e => cond_Zopp s (Z.shiftl (Zpos m) e)
  | _ => 0
  end.

(** Reduction of an integer modulo [2^32] into the signed 32-bit range. *)
Definition wrap32 (z : Z) : Z :=
  let r := z mod 2 ^ 32 in
  if r <? 2 ^ 31 then r else r - 2 ^ 32.

(** ToInt32, the conversion applied to the operands of [>>], [|], [&]. *)
Definition ToInt32 (x : number) : Z := wrap32 (truncate x).

(** The bitwise operators [a >> count], [a | b] and [a & b]: the operands
    are converted with ToInt32, the shift count is taken modulo 32, the
    shift propagates the sign, and the 32-bit result is a number again. *)
Definition sar (a : number) (count : Z) : number :=
  of_int (Z.shiftr (ToInt32 a) (count mod 32)).
Definition bor (a b : number) : number :=
  of_int (Z.lor (ToInt32 a) (ToInt32 b)).
Definition band (a b : number) : number :=
  of_int (Z.land (ToInt32 a) (ToInt32 b)).

(** [Math.PI] and [Number.EPSILON]. *)
Definition Math_PI : number := S754_finite false 7074237752028440 (-51).
Definition Number_EPSILON : number := S754_finite false 4503599627370496 (-104).

End JS.

Import JS.

Declare Scope js_scope.
Delimit Scope js_scope with js.
Bind Scope js_scope with number.
Infix "+" := add : js_scope.
Infix "-" := sub : js_scope.
Infix "*" := mul : js_scope.
Infix "/" := div : js_scope.
Infix "mod" := rem : js_scope.
Infix "<" := lt : js_scope.
Infix ">" := gt : js_scope.
Infix ">=" := ge : js_scope.
Infix "===" := eq (at level 70, no associativity) : js_scope.

(** ** The module's constants *)

Definition FULL_ANGLE : number := of_int 360.
Definition STRAIGHT_ANGLE : number := of_int 180.
Definition IS_INTEGER : number := dyadic 1 (-1).

Definition deg2Rad : number := (Math_PI * of_int 2 / FULL_ANGLE)%js.
Definition rad2Deg : number := (FULL_ANGLE / (Math_PI * of_int 2))%js.

(** ** The functions *)

(** [value >> 0]. *)
Definition toInt (value : number) : number := sar value 0.

Definition approximately (f1 f2 : number) : bool :=
  (Math_abs (f1 - f2) < Number_EPSILON)%js.

Definition clamp (value min max : number) : number :=
  if (value < min)%js then min
  else if (value > max)%js then max
  else value.

Definition clamp01 (value : number) : number :=
  if (value < of_int 0)%js then of_int 0
  else if (value > of_int 1)%js then of_int 1
  else value.

Definition nextPowerOfTwo (value : number) : number :=
  let value := toInt value in
  if (value < of_int 0)%js then of_int 0
  else
    let value := (value - of_int 1)%js in
    let value := bor value (sar value 1) in
    let value := bor value (sar value 2) in
    let value := bor value (sar value 4) in
    let value := bor value (sar value 8) in
    let value := bor value (sar value 16) in
    (value + of_int 1)%js.

Definition closestPowerOfTwo (value : number) : number :=
  let nextValue := nextPowerOfTwo value in
  if (nextValue - value > sar nextValue 2)%js
  then sar nextValue 1
  else nextValue.

Definition inverseLerp (a b value : number) : number :=
  ((clamp value (Math_min a b) (Math_max a b) - a) / (b - a))%js.

Definition isPowerOfTwo (value : number) : bool :=
  let value := toInt value in
  (band value (value - of_int 1) === of_int 0)%js.

Definition lerp (a b t : number) : number :=
  ((b - a) * clamp01 t + a)%js.

Definition lerpUnclamped (a b t : number) : number :=
  if (t < of_int 0)%js || (t > of_int 1)%js
  then (a + Math_abs (b - a) * t)%js
  else ((b - a) * clamp01 t + a)%js.

Definition moveTowards (current target maxDelta : number) : number :=
  if (maxDelta > of_int 0)%js
     && (((target < current)%js && (current - maxDelta < target)%js)
         || ((target > current)%js && (current + maxDelta > target)%js))
  then target
  else if (current > target)%js then (current - maxDelta)%js
  else (current + maxDelta)%js.

Definition repeat (t length : number) : number :=
  if (t > of_int 0)%js then (t mod length)%js
  else (length + t mod length)%js.

Definition round (f : number) : number :=
  let ceilVal := (f + IS_INTEGER)%js in
  if (ceilVal === Math_ceil f)%js then
    if (ceilVal mod of_int 2 === of_int 0)%js then (f + IS_INTEGER)%js
    else (f - IS_INTEGER)%js
  else Math_round f.

Definition sign (f : number) : number :=
  if (f >= of_int 0)%js then of_int 1 else neg (of_int 1).

Definition deltaAngle (current target : number) : number :=
  let current :=
    if (Math_abs current > FULL_ANGLE)%js then (current mod FULL_ANGLE)%js
    else current in
  let target :=
    if (Math_abs target > FULL_ANGLE)%js then (target mod FULL_ANGLE)%js
    else target in
  (target - current)%js.

Definition pingPong (t length : number) : number :=
  let t := if (t < of_int 0)%js then neg t else t in
  let mod_ := (t mod length)%js in
  if (Math_ceil (t / length) mod of_int 2 === of_int 0)%js then
    if (mod_ === of_int 0)%js then of_int 0 else (length - mod_)%js
  else
    if (mod_ === of_int 0)%js then length else mod_.

(** The two adjustment loops of [lerpAngle].  Each iteration consumes
    one unit of fuel; [None] means that the loop is still running when the
    fuel is exhausted. *)
Fixpoint lerpAngle_raise (fuel : nat) (a b : number) : option number :=
  match fuel with
  | O => None
  | S fuel' =>
      if (a > b + STRAIGHT_ANGLE)%js
      then lerpAngle_raise fuel' a (b + FULL_ANGLE)%js
      else Some b
  end.

Fixpoint lerpAngle_lower (fuel : nat) (a b : number) : option number :=
  match fuel with
  | O => None
  | S fuel' =>
      if (b > a + STRAIGHT_ANGLE)%js
      then lerpAngle_lower fuel' a (b - FULL_ANGLE)%js
      else Some b
  end.

Definition lerpAngle (fuel : nat) (a b t : number) : option number :=
  match lerpAngle_raise fuel a b with
  | None => None
  | Some b =>
      match lerpAngle_lower fuel a b with
      | None => None
      | Some b => Some (lerp a b t)
      end
  end.

(** ** Vocabulary of the statements *)

(** The special values: infinities and NaN. *)
Definition is_special (x : number) : bool :=
  match x with
  | S754_infinity _ | S754_nan => true
  | _ => false
  end.

(** Every number but NaN. *)
Definition not_nan (x : number) : bool :=
  match x with
  | S754_nan => false
  | _ => true
  end.

(** Finite numbers: zeros and finite non-zero values. *)
Definition is_finite (x : number) : bool :=
  match x with
  | S754_zero _ | S754_finite _ _ _ => true
  | _ => false
  end.

(** A mantissa and exponent in canonical form: at most 53 bits, an
    exponent within the range of doubles, and a leading bit at position 52
    unless the value is subnormal. *)
Definition canon (m : positive) (e : Z) : Prop :=
  Zpos m < 2 ^ 53 /\ -1074 <= e <= 971 /\ (2 ^ 52 <= Zpos m \/ e = -1074).

(** After [k] one-bit right shifts of [S], the rounding record holds the
    quotient by [2^k], and its round and sticky bits are clear when the
    division is exact. *)
Definition shifted (S : positive) (k : Z) (mrs : shr_record) : Prop :=
  0 <= k /\ shr_m mrs = Zpos S / 2 ^ k /\
  (orb (shr_r mrs) (shr_s mrs) = true -> Zpos S mod 2 ^ k <> 0).

(** The signed 32-bit range. *)
Definition int32 (z : Z) : Prop := - 2 ^ 31 <= z < 2 ^ 31.

Definition is_power_of_two (n : Z) : Prop := exists k, 0 <= k /\ n = 2 ^ k.

(** [r] is the smallest power of two that is at least [v]. *)
Definition smallest_power_of_two_ge (v r : Z) : Prop :=
  is_power_of_two r /\ v <= r /\
  forall p, is_power_of_two p -> v <= p -> r <= p.

(** The bit smear of [nextPowerOfTwo], read on integers. *)
Definition smear (x : Z) : Z :=
  let x := Z.lor x (Z.shiftr x 1) in
  let x := Z.lor x (Z.shiftr x 2) in
  let x := Z.lor x (Z.shiftr x 4) in
  let x := Z.lor x (Z.shiftr x 8) in
  Z.lor x (Z.shiftr x 16).

(** The integer held by [nextPowerOfTwo(value)], in terms of the 32-bit
    integer [v] held by [toInt(value)]. *)
Definition nextPowerOfTwo_int (v : Z) : Z :=
  if v <? 0 then 0 else smear (v - 1) + 1.

(** [y] collects, at each position [i], the bits of [x] in the window
    [i .. i+w-1]: the invariant of the bit smear. *)
Definition window (x w y : Z) : Prop :=
  0 <= y /\
  forall i, 0 <= i ->
    (Z.testbit y i = true <-> exists j, i <= j < i + w /\ Z.testbit x j = true).

(** ** Checks of the number model *)

(** [0.1 + 0.2] is [0.30000000000000004]: additions round to nearest. *)
Example add_rounds :
  (S754_finite false 7205759403792794 (-56) +
   S754_finite false 7205759403792794 (-55))%js =
  S754_finite false 5404319552844596 (-54).
Proof. vm_compute. reflexivity. Qed.

(** [2^53 + 1] is [2^53]: a small term is absorbed. *)
Example add_absorbs : (of_int (2 ^ 53) + of_int 1)%js = of_int (2 ^ 53).
Proof. vm_compute. reflexivity. Qed.

Example div_by_zero_values :
  (of_int 1 / of_int 0)%js = Infinity /\ (of_int 0 / of_int 0)%js = NaN.
Proof. split; vm_compute; reflexivity. Qed.

(** [7 % 5 == 2], [-7.5 % 2 == -1.5] and [-10 % 5 == -0]. *)
Example rem_values :
  (of_int 7 mod of_int 5)%js = of_int 2 /\
  (dyadic (-15) (-1) mod of_int 2)%js = dyadic (-3) (-1) /\
  (of_int (-10) mod of_int 5)%js = S754_zero true.
Proof. repeat split; vm_compute; reflexivity. Qed.

(** [Math.ceil(-2.5) == -2], [Math.ceil(-0.5) == -0], [Math.round(2.5) == 3]
    and [Math.round(-2.5) == -2]. *)
Example ceil_round_values :
  Math_ceil (dyadic (-5) (-1)) = of_int (-2) /\
  Math_ceil (dyadic (-1) (-1)) = S754_zero true /\
  Math_round (dyadic 5 (-1)) = of_int 3 /\
  Math_round (dyadic (-5) (-1)) = of_int (-2).
Proof. repeat split; vm_compute; reflexivity. Qed.

(** ToInt32 truncates toward zero, wraps modulo [2^32] and sends the
    special values to 0. *)
Example ToInt32_values :
  ToInt32 (dyadic (-11) (-2)) = -2 /\
  ToInt32 (of_int (2 ^ 32 + 5)) = 5 /\
  ToInt32 (of_int (2 ^ 31)) = - 2 ^ 31 /\
  ToInt32 NaN = 0 /\ ToInt32 Infinity = 0.
Proof. repeat split; vm_compute; reflexivity. Qed.

(** [-8 >> 1 == -4], and the shift count is taken modulo 32. *)
Example sar_values :
  sar (of_int (-8)) 1 = of_int (-4) /\ sar (of_int 6) 33 = of_int 3.
Proof. split; vm_compute; reflexivity. Qed.

(** [Math.PI] is a double, and prints as 3.141592653589793;
    [Number.EPSILON] is [2^-52]. *)
Example constants_values :
  is_double Math_PI = true /\
  3141592653589793 * 2 ^ 51 <= 7074237752028440 * 10 ^ 15
    < 3141592653589794 * 2 ^ 51 /\
  Number_EPSILON = dyadic 1 (-52).
Proof.
  split; [reflexivity|]. split; [|vm_compute; reflexivity].
  split; [apply Z.leb_le | apply Z.ltb_lt]; vm_compute; reflexivity.
Qed.

(** ** Comparison of a number with itself *)

Lemma SFcompare_refl x : SFcompare x x = Some Eq \/ SFcompare x x = None.
Proof.
  destruct x as [s | s | | s m e]; simpl; auto.
  - destruct s; auto.
  - left. rewrite Z.compare_refl.
    change (Pos.compare_cont Eq m m) with (Pos.compare m m).
    rewrite Pos.compare_refl. destruct s; reflexivity.
Qed.

Lemma lt_irrefl x : (x < x)%js = false.
Proof.
  unfold lt, SFltb. destruct (SFcompare_refl x) as [-> | ->]; reflexivity.
Qed.

(** [<] on finite numbers of the same sign compares exponents, then
    mantissas. *)
Lemma lt_finite_pos m1 e1 m2 e2 :
  (S754_finite false m1 e1 < S754_finite false m2 e2)%js = true <->
  e1 < e2 \/ (e1 = e2 /\ (m1 < m2)%positive).
Proof.
  unfold lt, SFltb, SFcompare.
  change (Pos.compare_cont Eq m1 m2) with (Pos.compare m1 m2).
  destruct (Z.compare_spec e1 e2) as [Heq | Hlt | Hgt].
  - destruct (Pos.compare_spec m1 m2) as [Hm | Hm | Hm]; split;
      try discriminate; try (intros _; right; split; assumption);
      try reflexivity; intros [H | [_ H]]; subst; lia.
  - split; [intros _; left; assumption | reflexivity].
  - split; [discriminate | intros [H | [H _]]; lia].
Qed.

Lemma lt_finite_neg m1 e1 m2 e2 :
  (S754_finite true m1 e1 < S754_finite true m2 e2)%js = true <->
  e2 < e1 \/ (e1 = e2 /\ (m2 < m1)%positive).
Proof.
  unfold lt, SFltb, SFcompare.
  change (Pos.compare_cont Eq m1 m2) with (Pos.compare m1 m2).
  destruct (Z.compare_spec e1 e2) as [Heq | Hlt | Hgt].
  - destruct (Pos.compare_spec m1 m2) as [Hm | Hm | Hm]; simpl CompOpp; split;
      try discriminate; try (intros _; right; split; assumption);
      try reflexivity; intros [H | [_ H]]; subst; lia.
  - split; [discriminate | intros [H | [H _]]; lia].
  - split; [intros _; left; assumption | reflexivity].
Qed.

(** ** Canonical doubles *)

Lemma digits2_pos_bound m : Zpos m < 2 ^ Zpos (digits2_pos m).
Proof.
  induction m as [m IH | m IH |]; simpl digits2_pos.
  - rewrite Pos2Z.inj_succ, Z.pow_succ_r by lia. lia.
  - rewrite Pos2Z.inj_succ, Z.pow_succ_r by lia. lia.
  - reflexivity.
Qed.

Lemma fexp_eq x : fexp prec emax x = Z.max (x - 53) (-1074).
Proof. reflexivity. Qed.

Lemma digits2_pos_lower m : 2 ^ (Zpos (digits2_pos m) - 1) <= Zpos m.
Proof.
  induction m as [m IH | m IH |]; simpl digits2_pos.
  - rewrite Pos2Z.inj_succ. replace (Z.succ (Zpos (digits2_pos m)) - 1)
      with (Z.succ (Zpos (digits2_pos m) - 1)) by lia.
    rewrite Z.pow_succ_r by lia. lia.
  - rewrite Pos2Z.inj_succ. replace (Z.succ (Zpos (digits2_pos m)) - 1)
      with (Z.succ (Zpos (digits2_pos m) - 1)) by lia.
    rewrite Z.pow_succ_r by lia. lia.
  - reflexivity.
Qed.

(** The number of digits is the only [d] with [2^(d-1) <= m < 2^d]. *)
Lemma digits2_pos_unique m d :
  2 ^ (d - 1) <= Zpos m < 2 ^ d -> Zpos (digits2_pos m) = d.
Proof.
  intros [Hlo Hhi].
  pose proof (digits2_pos_bound m) as Hb. pose proof (digits2_pos_lower m) as Hl.
  set (D := Zpos (digits2_pos m)) in *.
  assert (HD : 0 < D) by (unfold D; lia).
  destruct (Z_lt_le_dec d 1) as [Hd | Hd].
  - assert (2 ^ d <= 2 ^ 0) by (destruct (Z_lt_le_dec d 0);
      [rewrite Z.pow_neg_r by lia; simpl; lia | apply Z.pow_le_mono_r; lia]).
    simpl in *. lia.
  - destruct (Z.lt_trichotomy D d) as [Hlt | [Heq | Hgt]]; [|assumption|].
    + assert (2 ^ D <= 2 ^ (d - 1)) by (apply Z.pow_le_mono_r; lia). lia.
    + assert (2 ^ d <= 2 ^ (D - 1)) by (apply Z.pow_le_mono_r; lia). lia.
Qed.

Lemma digits2_pos_le m d : 0 <= d -> Zpos m < 2 ^ d -> Zpos (digits2_pos m) <= d.
Proof.
  intros Hd Hm. pose proof (digits2_pos_lower m) as Hl.
  destruct (Z_le_gt_dec (Zpos (digits2_pos m)) d) as [|Hgt]; [assumption|].
  assert (2 ^ d <= 2 ^ (Zpos (digits2_pos m) - 1)) by (apply Z.pow_le_mono_r; lia).
  lia.
Qed.

Lemma is_double_canon s m e : is_double (S754_finite s m e) = true -> canon m e.
Proof.
  unfold is_double, valid_binary, bounded, canonical_mantissa.
  rewrite fexp_eq. intros H. apply andb_true_iff in H. destruct H as [Hc Hb].
  apply Z.eqb_eq in Hc. apply Z.leb_le in Hb.
  change (emax - prec) with 971 in Hb.
  pose proof (digits2_pos_bound m) as Hu. pose proof (digits2_pos_lower m) as Hl.
  set (D := Zpos (digits2_pos m)) in *.
  assert (HD : D <= 53) by lia.
  assert (Hm : Zpos m < 2 ^ 53).
  { apply Z.lt_le_trans with (1 := Hu). apply Z.pow_le_mono_r; lia. }
  repeat split; try lia.
  destruct (Z.eq_dec D 53) as [HD53 | HD53].
  - left. rewrite HD53 in Hl. exact Hl.
  - right. lia.
Qed.

Lemma canon_canonical m e : canon m e -> canonical_mantissa prec emax m e = true.
Proof.
  intros (Hm & He & Hn). unfold canonical_mantissa. rewrite fexp_eq.
  apply Z.eqb_eq.
  assert (HD : Zpos (digits2_pos m) <= 53) by (apply digits2_pos_le; lia).
  destruct Hn as [Hn | Hn].
  - rewrite (digits2_pos_unique m 53) by (split; assumption). lia.
  - lia.
Qed.

(** Rounding a canonical mantissa and exponent changes nothing. *)
Lemma binary_round_aux_canon s m e :
  canon m e -> binary_round_aux prec emax s (Zpos m) e loc_Exact = S754_finite s m e.
Proof.
  intros Hc. pose proof (canon_canonical m e Hc) as Hcm.
  unfold canonical_mantissa in Hcm. apply Z.eqb_eq in Hcm.
  destruct Hc as (_ & He & _).
  unfold binary_round_aux, shr_fexp. cbn [Zdigits2 shr_record_of_loc].
  rewrite Hcm, Z.sub_diag. cbn [shr shr_m loc_of_shr_record round_nearest_even].
  cbn [Zdigits2 shr_record_of_loc]. rewrite Hcm, Z.sub_diag. cbn [shr shr_m].
  change (emax - prec) with 971.
  destruct (Z.leb_spec e 971); [reflexivity | lia].
Qed.

Lemma iter_xO_pow m k : Zpos (Pos.iter xO m k) = Zpos m * 2 ^ Zpos k.
Proof.
  induction k as [|k IH] using Pos.peano_ind.
  - simpl. lia.
  - rewrite Pos.iter_succ, Pos2Z.inj_xO, IH, Pos2Z.inj_succ.
    rewrite Z.pow_succ_r by lia. ring.
Qed.

(** A value [m * 2^e] with at most 53 significant bits, within the
    exponent range, is a double: normalisation is exact. *)
Lemma binary_round_exact s m e :
  Zpos m < 2 ^ 53 -> -1074 <= e <= 971 ->
  exists m' e',
    binary_round prec emax s m e = S754_finite s m' e' /\
    canon m' e' /\ e' <= e /\ Zpos m' = Zpos m * 2 ^ (e - e').
Proof.
  intros Hm He. unfold binary_round. rewrite fexp_eq.
  pose proof (digits2_pos_bound m) as Hu. pose proof (digits2_pos_lower m) as Hl.
  assert (HD : Zpos (digits2_pos m) <= 53) by (apply digits2_pos_le; lia).
  set (D := Zpos (digits2_pos m)) in *.
  assert (HD0 : 0 < D) by (unfold D; lia).
  set (f := Z.max (D + e - 53) (-1074)).
  assert (Hf : f <= e) by (unfold f; lia).
  unfold shl_align. destruct (f - e) as [|p|p] eqn:Hfe; try lia.
  - (* already at the canonical exponent *)
    assert (Hc : canon m e).
    { split; [assumption|]. split; [assumption|].
      destruct (Z.eq_dec D 53) as [HD53 | HD53].
      - left. rewrite HD53 in Hl. exact Hl.
      - right. unfold f in Hfe. lia. }
    exists m, e. rewrite binary_round_aux_canon by assumption.
    rewrite Z.sub_diag, Z.pow_0_r.
    split; [reflexivity|]. split; [exact Hc|]. split; lia.
  - (* shifted left to the canonical exponent *)
    assert (Hp : Zpos p = e - f) by lia.
    assert (Hval : Zpos (Pos.iter xO m p) = Zpos m * 2 ^ (e - f))
      by (rewrite iter_xO_pow, Hp; reflexivity).
    assert (Hpow : 0 < 2 ^ (e - f)) by (apply Z.pow_pos_nonneg; lia).
    assert (Hc : canon (Pos.iter xO m p) f).
    { rewrite <- Hp in Hpow. unfold canon. rewrite Hval. split; [|split].
      - apply Z.lt_le_trans with (2 ^ D * 2 ^ (e - f)); [nia|].
        rewrite <- Z.pow_add_r by lia. apply Z.pow_le_mono_r; unfold f; lia.
      - unfold f. lia.
      - destruct (Z.eq_dec f (-1074)) as [Hf' | Hf']; [right; assumption | left].
        assert (Hfd : f = D + e - 53) by (unfold f in *; lia).
        replace 52 with ((D - 1) + (e - f)) by lia.
        rewrite Z.pow_add_r by lia. rewrite Hp in Hpow. nia. }
    exists (Pos.iter xO m p), f. rewrite binary_round_aux_canon by assumption.
    split; [reflexivity|]. split; [exact Hc|]. split; assumption.
Qed.

(** ** Order of canonical doubles *)

Lemma le_finite_pos m1 e1 m2 e2 :
  (S754_finite false m2 e2 >= S754_finite false m1 e1)%js = true <->
  e1 < e2 \/ (e1 = e2 /\ (m1 <= m2)%positive).
Proof.
  unfold ge, SFleb, SFcompare.
  change (Pos.compare_cont Eq m1 m2) with (Pos.compare m1 m2).
  destruct (Z.compare_spec e1 e2) as [Heq | Hlt | Hgt].
  - destruct (Pos.compare_spec m1 m2) as [Hm | Hm | Hm]; split;
      try discriminate; try (intros _; right; split; [assumption | lia]);
      try reflexivity; intros [H | [_ H]]; subst; lia.
  - split; [intros _; left; assumption | reflexivity].
  - split; [discriminate | intros [H | [H _]]; lia].
Qed.

Section CanonOrder.

Variables (m1 m2 : positive) (e1 e2 c : Z).
Hypothesis canon1 : canon m1 e1.
Hypothesis canon2 : canon m2 e2.
Hypothesis c_low1 : c <= e1.
Hypothesis c_low2 : c <= e2.

(** Of two canonical doubles, the one of smaller value has the smaller
    exponent. *)
Lemma canon_exp_le :
  Zpos m1 * 2 ^ (e1 - c) <= Zpos m2 * 2 ^ (e2 - c) -> e1 <= e2.
Proof.
  intros Hle. destruct (Z_le_gt_dec e1 e2) as [|Hgt]; [assumption | exfalso].
  destruct canon1 as (_ & He1 & Hn1). destruct canon2 as (Hm2 & He2 & _).
  assert (H52 : 2 ^ 52 <= Zpos m1) by (destruct Hn1; [assumption | lia]).
  assert (HP : 0 < 2 ^ (e2 - c)) by (apply Z.pow_pos_nonneg; lia).
  assert (HQ : 2 ^ 1 <= 2 ^ (e1 - e2)) by (apply Z.pow_le_mono_r; lia).
  replace (e1 - c) with ((e1 - e2) + (e2 - c)) in Hle by lia.
  rewrite Z.pow_add_r in Hle by lia.
  rewrite Z.mul_assoc in Hle. apply Z.mul_le_mono_pos_r in Hle; [|assumption].
  assert (H53 : 2 ^ 52 * 2 ^ 1 <= Zpos m1 * 2 ^ (e1 - e2))
    by (apply Z.mul_le_mono_nonneg; lia).
  change (2 ^ 52 * 2 ^ 1) with (2 ^ 53) in H53. lia.
Qed.

Lemma canon_lt :
  Zpos m1 * 2 ^ (e1 - c) < Zpos m2 * 2 ^ (e2 - c) ->
  (S754_finite false m1 e1 < S754_finite false m2 e2)%js = true.
Proof.
  intros Hlt. apply lt_finite_pos.
  pose proof (canon_exp_le ltac:(lia)) as Hexp.
  destruct (Z.eq_dec e1 e2) as [Heq | Hne]; [right | left; lia].
  split; [assumption|]. subst e2.
  assert (HP : 0 < 2 ^ (e1 - c)) by (apply Z.pow_pos_nonneg; lia).
  apply Pos2Z.pos_lt_pos. nia.
Qed.

Lemma canon_le :
  Zpos m1 * 2 ^ (e1 - c) <= Zpos m2 * 2 ^ (e2 - c) ->
  (S754_finite false m2 e2 >= S754_finite false m1 e1)%js = true.
Proof.
  intros Hle. apply le_finite_pos.
  pose proof (canon_exp_le Hle) as Hexp.
  destruct (Z.eq_dec e1 e2) as [Heq | Hne]; [right | left; lia].
  split; [assumption|]. subst e2.
  assert (HP : 0 < 2 ^ (e1 - c)) by (apply Z.pow_pos_nonneg; lia).
  apply Pos2Z.pos_le_pos. nia.
Qed.

End CanonOrder.

(** Two canonical doubles of the same value are the same. *)
Lemma canon_unique m1 e1 m2 e2 c :
  canon m1 e1 -> canon m2 e2 -> c <= e1 -> c <= e2 ->
  Zpos m1 * 2 ^ (e1 - c) = Zpos m2 * 2 ^ (e2 - c) ->
  m1 = m2 /\ e1 = e2.
Proof.
  intros H1 H2 Hc1 Hc2 Hv.
  assert (He : e1 = e2).
  { apply Z.le_antisymm.
    - apply (canon_exp_le m1 m2 e1 e2 c); try assumption. lia.
    - apply (canon_exp_le m2 m1 e2 e1 c); try assumption. lia. }
  split; [|exact He]. subst e2.
  assert (HP : 0 < 2 ^ (e1 - c)) by (apply Z.pow_pos_nonneg; lia).
  apply Z.mul_cancel_r in Hv; [|lia]. now injection Hv.
Qed.

(** ** Rounding after a right shift *)

Section ShiftRight.

Variable S : positive.

Lemma shifted_start : shifted S 0 (shr_record_of_loc (Zpos S) loc_Exact).
Proof.
  unfold shifted. simpl. split; [lia|]. split; [|discriminate].
  now rewrite Z.div_1_r.
Qed.

Lemma shifted_step k mrs : shifted S k mrs -> shifted S (k + 1) (shr_1 mrs).
Proof.
  intros (Hk & Hm & Hrs). destruct mrs as [m r s]. simpl in Hm, Hrs.
  assert (Hpk : 0 < 2 ^ k) by (apply Z.pow_pos_nonneg; lia).
  assert (Hpk1 : 2 ^ (k + 1) = 2 ^ k * 2) by (rewrite Z.pow_add_r by lia; reflexivity).
  assert (Hdiv : Zpos S / 2 ^ (k + 1) = m / 2).
  { rewrite Hpk1, <- Z.div_div by lia. now rewrite Hm. }
  assert (Hsticky : orb r s = true -> Zpos S mod 2 ^ (k + 1) <> 0).
  { intros Hor Hz. apply (Hrs Hor).
    apply Z.mod_divide in Hz; [|lia]. apply Z.mod_divide; [lia|].
    destruct Hz as [q Hq]. exists (q * 2). rewrite Hq, Hpk1. ring. }
  assert (Hodd : Z.odd m = true -> Zpos S mod 2 ^ (k + 1) <> 0).
  { intros Ho Hz. apply Z.mod_divide in Hz; [|lia]. destruct Hz as [q Hq].
    assert (Hm2 : m = q * 2).
    { rewrite Hm, Hq, Hpk1. rewrite Z.mul_assoc.
      rewrite (Z.mul_comm (q * 2 ^ k) 2), (Z.mul_comm q (2 ^ k)), Z.mul_assoc.
      rewrite (Z.mul_comm 2 (2 ^ k)), <- Z.mul_assoc, Z.mul_comm.
      rewrite Z.div_mul by lia. ring. }
    rewrite Hm2, Z.odd_mul in Ho. simpl in Ho. rewrite andb_false_r in Ho.
    discriminate. }
  assert (Hm0 : 0 <= m) by (rewrite Hm; apply Z.div_pos; lia).
  unfold shifted. split; [lia|]. rewrite Hdiv.
  destruct m as [|[p|p|]|p]; simpl shr_1; cbn [shr_m shr_r shr_s];
    try lia.
  - split; [reflexivity|]. rewrite orb_false_l. exact Hsticky.
  - split; [rewrite Pos2Z.inj_xI; apply Z.div_unique with 1; lia|].
    intros _. now apply Hodd.
  - split; [rewrite Pos2Z.inj_xO; apply Z.div_unique with 0; lia|].
    rewrite orb_false_l. exact Hsticky.
  - split; [reflexivity|]. intros _. now apply Hodd.
Qed.

Lemma shifted_iter n : forall k mrs,
  shifted S k mrs -> shifted S (k + Zpos n) (iter_pos shr_1 n mrs).
Proof.
  induction n as [n IH | n IH |]; intros k mrs H; simpl iter_pos.
  - replace (k + Zpos n~1) with (k + 1 + Zpos n + Zpos n) by lia.
    apply IH, IH, shifted_step, H.
  - replace (k + Zpos n~0) with (k + Zpos n + Zpos n) by lia.
    apply IH, IH, H.
  - apply shifted_step, H.
Qed.

(** Round-to-nearest-even moves the quotient up by at most one, and not
    at all when the division is exact. *)
Lemma round_nearest_even_shifted k mrs :
  shifted S k mrs ->
  let m := round_nearest_even (shr_m mrs) (loc_of_shr_record mrs) in
  Zpos S / 2 ^ k <= m <= Zpos S / 2 ^ k + 1 /\
  (Zpos S mod 2 ^ k = 0 -> m = Zpos S / 2 ^ k).
Proof.
  intros (Hk & Hm & Hrs). destruct mrs as [m r s]. simpl in Hm, Hrs.
  cbn [shr_m]. rewrite <- Hm.
  destruct r, s; cbn [loc_of_shr_record round_nearest_even orb] in *;
    try (destruct (Z.even m)); split; try lia;
    intros Hz; exfalso; now apply Hrs.
Qed.

End ShiftRight.

(** ** Rounding never crosses a double *)

Lemma shr_fexp_shift S e0 :
  53 < Zpos (digits2_pos S) -> -1074 <= e0 ->
  exists mrs,
    shr_fexp prec emax (Zpos S) e0 loc_Exact =
      (mrs, e0 + (Zpos (digits2_pos S) - 53)) /\
    shifted S (Zpos (digits2_pos S) - 53) mrs.
Proof.
  intros HD He0. unfold shr_fexp. cbn [Zdigits2]. rewrite fexp_eq.
  set (D := Zpos (digits2_pos S)) in *.
  rewrite Z.max_l by lia.
  destruct (D + e0 - 53 - e0) as [|n|n] eqn:Hn; try lia.
  exists (iter_pos shr_1 n (shr_record_of_loc (Zpos S) loc_Exact)).
  cbn [shr]. split; [f_equal; lia|].
  replace (D - 53) with (0 + Zpos n) by lia.
  apply shifted_iter, shifted_start.
Qed.

Lemma shr_fexp_normal m f :
  2 ^ 52 <= Zpos m < 2 ^ 53 -> -1074 <= f ->
  shr_fexp prec emax (Zpos m) f loc_Exact = (Build_shr_record (Zpos m) false false, f).
Proof.
  intros Hm Hf. unfold shr_fexp. cbn [Zdigits2]. rewrite fexp_eq.
  rewrite (digits2_pos_unique m 53) by exact Hm.
  replace (Z.max (53 + f - 53) (-1074) - f) with 0 by lia. reflexivity.
Qed.

Lemma shr_fexp_carry f :
  -1074 <= f ->
  shr_fexp prec emax (Zpos 9007199254740992) f loc_Exact =
    (Build_shr_record (Zpos 4503599627370496) false false, f + 1).
Proof.
  intros Hf. unfold shr_fexp. rewrite fexp_eq.
  change (Zdigits2 (Zpos 9007199254740992)) with 54.
  replace (Z.max (54 + f - 53) (-1074) - f) with 1 by lia. reflexivity.
Qed.

(** The sum or difference [S * 2^e0], rounded, does not exceed a double
    [mL * 2^eL] that is at least [S * 2^e0]. *)
Lemma binary_round_upper (S : positive) e0 mL eL :
  -1074 <= e0 -> canon mL eL -> e0 <= eL ->
  Zpos S <= Zpos mL * 2 ^ (eL - e0) ->
  exists m e,
    binary_round prec emax false S e0 = S754_finite false m e /\
    canon m e /\
    (S754_finite false mL eL >= S754_finite false m e)%js = true.
Proof.
  intros He0 HcL HeL Hle. pose proof HcL as (HmL & HeLr & _).
  pose proof (digits2_pos_bound S) as Hu. pose proof (digits2_pos_lower S) as Hl.
  assert (HP0 : 0 < 2 ^ (eL - e0)) by (apply Z.pow_pos_nonneg; lia).
  destruct (Z_le_gt_dec (Zpos (digits2_pos S)) 53) as [HD | HD].
  - (* no bit is lost *)
    assert (HS : Zpos S < 2 ^ 53).
    { apply Z.lt_le_trans with (1 := Hu). apply Z.pow_le_mono_r; lia. }
    destruct (binary_round_exact false S e0 HS ltac:(lia))
      as (m & e & Hr & Hc & He & Hv).
    exists m, e. split; [exact Hr|]. split; [exact Hc|].
    apply (canon_le m mL e eL e Hc HcL); try lia.
    rewrite Z.sub_diag, Z.mul_1_r, Hv.
    replace (eL - e) with ((eL - e0) + (e0 - e)) by lia.
    rewrite Z.pow_add_r, Z.mul_assoc by lia.
    apply Z.mul_le_mono_nonneg_r; [apply Z.pow_nonneg; lia | assumption].
  - (* the low bits are shifted out and rounded *)
    set (D := Zpos (digits2_pos S)) in *.
    set (n := D - 53). set (f := e0 + n).
    assert (Hn : 0 < n) by (unfold n; lia).
    assert (Hpn : 0 < 2 ^ n) by (apply Z.pow_pos_nonneg; lia).
    (* the canonical exponent of the sum is at most that of the bound *)
    assert (HfL : f <= eL).
    { assert (Hlt : 2 ^ (D - 1) < 2 ^ (53 + (eL - e0))).
      { rewrite Z.pow_add_r by lia. nia. }
      apply Z.pow_lt_mono_r_iff in Hlt; unfold f, n; lia. }
    set (Lf := Zpos mL * 2 ^ (eL - f)).
    assert (HLf : Zpos mL * 2 ^ (eL - e0) = Lf * 2 ^ n).
    { unfold Lf. rewrite <- Z.mul_assoc, <- Z.pow_add_r by lia.
      f_equal. f_equal. unfold f. lia. }
    (* the quotient has exactly 53 bits *)
    assert (Hq : 2 ^ 52 <= Zpos S / 2 ^ n < 2 ^ 53).
    { split.
      - apply Z.div_le_lower_bound; [assumption|].
        rewrite <- Z.pow_add_r by lia.
        replace (n + 52) with (D - 1) by (unfold n; lia). exact Hl.
      - apply Z.div_lt_upper_bound; [assumption|].
        rewrite <- Z.pow_add_r by lia.
        replace (n + 53) with D by (unfold n; lia). exact Hu. }
    destruct (shr_fexp_shift S e0 ltac:(fold D; lia) He0) as (mrs & Hshr & Hsh).
    fold D n f in Hshr, Hsh.
    pose proof (round_nearest_even_shifted S n mrs Hsh) as [Hrne Hexact].
    cbv zeta in Hrne, Hexact.
    set (m2 := round_nearest_even (shr_m mrs) (loc_of_shr_record mrs)) in *.
    (* the rounded quotient stays below the bound *)
    assert (Hm2 : m2 <= Lf).
    { rewrite HLf in Hle.
      assert (Hqle : Zpos S / 2 ^ n <= Lf).
      { apply Z.div_le_upper_bound; [assumption | lia]. }
      destruct (Z.eq_dec (Zpos S mod 2 ^ n) 0) as [Hz | Hnz].
      - rewrite (Hexact Hz). exact Hqle.
      - assert (Zpos S <> Lf * 2 ^ n).
        { intros Heq. apply Hnz. rewrite Heq. apply Z.mod_mul. lia. }
        assert (Zpos S / 2 ^ n < Lf)
          by (apply Z.div_lt_upper_bound; [assumption | lia]).
        lia. }
    unfold binary_round. rewrite fexp_eq. fold D.
    rewrite Z.max_l by lia. unfold shl_align.
    destruct (D + e0 - 53 - e0) as [|p|p] eqn:Hp; try lia.
    unfold binary_round_aux. rewrite Hshr. fold m2.
    destruct m2 as [|mp|mp] eqn:Hmp; try lia.
    destruct (Z.eq_dec (Zpos mp) (2 ^ 53)) as [Hcarry | Hnocarry].
    + (* the mantissa overflows to [2^53] *)
      change (2 ^ 53) with (Zpos 9007199254740992) in Hcarry.
      injection Hcarry as ->.
      rewrite shr_fexp_carry by (unfold f; lia). cbn [shr_m].
      assert (Hf1 : f + 1 <= eL).
      { destruct (Z_le_gt_dec (f + 1) eL) as [|Hgt]; [assumption | exfalso].
        assert (eL = f) by lia. subst eL. unfold Lf in Hm2.
        rewrite Z.sub_diag, Z.mul_1_r in Hm2.
        change (2 ^ 53) with 9007199254740992 in HmL. lia. }
      change (emax - prec) with 971.
      destruct (Z.leb_spec (f + 1) 971) as [_ | Hbad]; [|lia].
      assert (Hc : canon 4503599627370496 (f + 1)).
      { split; [reflexivity|]. split; [unfold f; lia|]. left.
        apply Z.le_refl. }
      exists 4503599627370496%positive, (f + 1). split; [reflexivity|].
      split; [exact Hc|].
      apply (canon_le _ mL (f + 1) eL (f + 1) Hc HcL); try lia.
      rewrite Z.sub_diag, Z.mul_1_r. unfold Lf in Hm2.
      replace (eL - f) with ((eL - (f + 1)) + 1) in Hm2 by lia.
      rewrite Z.pow_add_r in Hm2 by lia.
      change (2 ^ 1) with 2 in Hm2.
      change (Zpos 9007199254740992) with (Zpos 4503599627370496 * 2) in Hm2.
      lia.
    + (* the mantissa keeps 53 bits *)
      rewrite shr_fexp_normal by (unfold f; lia). cbn [shr_m].
      change (emax - prec) with 971.
      destruct (Z.leb_spec f 971) as [_ | Hbad]; [|lia].
      assert (Hc : canon mp f).
      { split; [lia|]. split; [unfold f; lia|]. left. lia. }
      exists mp, f. split; [reflexivity|]. split; [exact Hc|].
      apply (canon_le mp mL f eL f Hc HcL); try lia.
      rewrite Z.sub_diag, Z.mul_1_r. exact Hm2.
Qed.

(** Rounding depends on the value only: [q * 2^k * 2^(e-k)] rounds as
    [q * 2^e], exactly, when [q] has at most 53 bits. *)
Lemma binary_round_value s (S q : positive) k e :
  Zpos S = Zpos q * 2 ^ k -> 0 <= k -> Zpos q < 2 ^ 53 ->
  -1074 <= e - k -> e <= 971 ->
  binary_round prec emax s S (e - k) = binary_round prec emax s q e.
Proof.
  intros HS Hk Hq Hlo Hhi.
  destruct (binary_round_exact s q e Hq ltac:(lia))
    as (m' & e' & -> & Hc' & He' & Hv').
  assert (Hpk : 0 < 2 ^ k) by (apply Z.pow_pos_nonneg; lia).
  pose proof (digits2_pos_bound S) as Hu. pose proof (digits2_pos_lower S) as Hl.
  pose proof (digits2_pos_bound q) as Huq. pose proof (digits2_pos_lower q) as Hlq.
  assert (HDq : Zpos (digits2_pos q) <= 53) by (apply digits2_pos_le; lia).
  assert (HD : Zpos (digits2_pos S) = Zpos (digits2_pos q) + k).
  { apply digits2_pos_unique. rewrite HS. split.
    - replace (Zpos (digits2_pos q) + k - 1) with (Zpos (digits2_pos q) - 1 + k) by lia.
      rewrite Z.pow_add_r by lia. nia.
    - rewrite Z.pow_add_r by lia. nia. }
  destruct (Z_le_gt_dec (Zpos (digits2_pos S)) 53) as [HD53 | HD53].
  - (* the scaled mantissa still fits *)
    assert (HS53 : Zpos S < 2 ^ 53).
    { apply Z.lt_le_trans with (1 := Hu). apply Z.pow_le_mono_r; lia. }
    destruct (binary_round_exact s S (e - k) HS53 ltac:(lia))
      as (m1 & e1 & -> & Hc1 & He1 & Hv1).
    set (c := Z.min e1 e').
    destruct (canon_unique m1 e1 m' e' c Hc1 Hc') as [-> ->];
      try (unfold c; lia); [|reflexivity].
    rewrite Hv1, Hv', HS. rewrite <- !Z.mul_assoc, <- !Z.pow_add_r by (unfold c; lia).
    f_equal. f_equal. lia.
  - (* the trailing zeros are shifted out *)
    set (D := Zpos (digits2_pos S)) in *.
    set (n := D - 53). set (f := e - k + n).
    assert (Hn : 0 < n <= k) by (unfold n; lia).
    assert (Hpn : 0 < 2 ^ n) by (apply Z.pow_pos_nonneg; lia).
    assert (HSn : Zpos S = (Zpos q * 2 ^ (k - n)) * 2 ^ n).
    { rewrite HS, <- Z.mul_assoc, <- Z.pow_add_r by lia. f_equal. f_equal. lia. }
    assert (Hquo : Zpos S / 2 ^ n = Zpos q * 2 ^ (k - n))
      by (rewrite HSn; apply Z.div_mul; lia).
    assert (Hmod : Zpos S mod 2 ^ n = 0)
      by (rewrite HSn; apply Z.mod_mul; lia).
    assert (Hq53 : 2 ^ 52 <= Zpos S / 2 ^ n < 2 ^ 53).
    { split.
      - apply Z.div_le_lower_bound; [assumption|].
        rewrite <- Z.pow_add_r by lia.
        replace (n + 52) with (D - 1) by (unfold n; lia). exact Hl.
      - apply Z.div_lt_upper_bound; [assumption|].
        rewrite <- Z.pow_add_r by lia.
        replace (n + 53) with D by (unfold n; lia). exact Hu. }
    destruct (shr_fexp_shift S (e - k) ltac:(fold D; lia) Hlo) as (mrs & Hshr & Hsh).
    fold D n f in Hshr, Hsh.
    pose proof (round_nearest_even_shifted S n mrs Hsh) as [_ Hexact].
    cbv zeta in Hexact. specialize (Hexact Hmod).
    unfold binary_round. rewrite fexp_eq. fold D.
    rewrite Z.max_l by lia. unfold shl_align.
    destruct (D + (e - k) - 53 - (e - k)) as [|p|p] eqn:Hp; try lia.
    unfold binary_round_aux. rewrite Hshr, Hexact.
    destruct (Zpos S / 2 ^ n) as [|mq|mq] eqn:Hmq; try lia.
    rewrite shr_fexp_normal by (unfold f; lia). cbn [shr_m].
    change (emax - prec) with 971.
    destruct (Z.leb_spec f 971) as [_ | Hbad]; [|unfold f in Hbad; lia].
    assert (Hcq : canon mq f).
    { split; [lia|]. split; [unfold f; lia|]. left. lia. }
    set (c := Z.min f e').
    destruct (canon_unique mq f m' e' c Hcq Hc') as [-> ->];
      try (unfold c; lia); [|reflexivity].
    rewrite Hquo, Hv'. rewrite <- !Z.mul_assoc, <- !Z.pow_add_r by (unfold c, f; lia).
    f_equal. f_equal. unfold f. lia.
Qed.

(** ** The remainder operator *)

Lemma shl_align_value m e e' :
  e' <= e -> Zpos (fst (shl_align m e e')) = Zpos m * 2 ^ (e - e').
Proof.
  intros He. unfold shl_align. destruct (e' - e) as [|p|p] eqn:Hp; try lia.
  - replace (e - e') with 0 by lia. simpl fst. lia.
  - simpl fst. rewrite iter_xO_pow. f_equal. f_equal. lia.
Qed.

(** The remainder of two doubles is a zero of the dividend's sign or a
    double of the dividend's sign, smaller in magnitude than the divisor. *)
Lemma rem_finite sn mn en sd md ed :
  canon mn en -> canon md ed ->
  (S754_finite sn mn en mod S754_finite sd md ed)%js = S754_zero sn \/
  exists m e,
    (S754_finite sn mn en mod S754_finite sd md ed)%js = S754_finite sn m e /\
    canon m e /\ e <= ed /\ Zpos m < Zpos md * 2 ^ (ed - e).
Proof.
  intros (Hmn & Hen & _) (Hmd & Hed & _). unfold rem.
  set (e0 := Z.min en ed).
  rewrite !Z.shiftl_mul_pow2 by (unfold e0; lia).
  set (N := Zpos mn * 2 ^ (en - e0)). set (Dv := Zpos md * 2 ^ (ed - e0)).
  assert (HN : 0 < N).
  { unfold N. apply Z.mul_pos_pos; [lia|]. apply Z.pow_pos_nonneg; unfold e0; lia. }
  assert (HD : 0 < Dv).
  { unfold Dv. apply Z.mul_pos_pos; [lia|]. apply Z.pow_pos_nonneg; unfold e0; lia. }
  rewrite Z.rem_mod_nonneg by lia.
  pose proof (Z.mod_pos_bound N Dv HD) as HR.
  pose proof (Z.mod_le N Dv ltac:(lia) HD) as HRN.
  destruct (Z.eqb_spec (N mod Dv) 0) as [|Hnz]; [left; reflexivity | right].
  assert (HR53 : N mod Dv < 2 ^ 53).
  { destruct (Z_le_gt_dec en ed).
    - assert (HNm : N = Zpos mn).
      { unfold N. replace (en - e0) with 0 by (unfold e0; lia). lia. }
      lia.
    - assert (HDm : Dv = Zpos md).
      { unfold Dv. replace (ed - e0) with 0 by (unfold e0; lia). lia. }
      lia. }
  destruct (N mod Dv) as [|r|r] eqn:Hr; try lia.
  assert (Hnorm : binary_normalize prec emax (cond_Zopp sn (Zpos r)) e0 false =
                  binary_round prec emax sn r e0) by (destruct sn; reflexivity).
  rewrite Hnorm.
  destruct (binary_round_exact sn r e0 HR53 ltac:(unfold e0; lia))
    as (m & e & Hround & Hc & He & Hv).
  exists m, e. split; [exact Hround|]. split; [exact Hc|].
  split; [unfold e0 in He; lia|]. rewrite Hv.
  replace (ed - e) with ((ed - e0) + (e0 - e)) by (unfold e0 in *; lia).
  rewrite Z.pow_add_r, Z.mul_assoc by (unfold e0 in *; lia). fold Dv.
  apply Z.mul_lt_mono_pos_r; [apply Z.pow_pos_nonneg; lia | lia].
Qed.

(** ** Integers held by numbers *)

Lemma of_int_finite s (z : positive) :
  Zpos z < 2 ^ 53 ->
  exists m e,
    of_int (cond_Zopp s (Zpos z)) = S754_finite s m e /\
    canon m e /\ e <= 0 /\ Zpos m = Zpos z * 2 ^ (- e).
Proof.
  intros Hz.
  assert (Hof : of_int (cond_Zopp s (Zpos z)) = binary_round prec emax s z 0)
    by (destruct s; reflexivity).
  rewrite Hof.
  destruct (binary_round_exact s z 0 Hz ltac:(lia)) as (m & e & Hr & Hc & He & Hv).
  exists m, e. rewrite Z.sub_0_l in Hv. repeat split; try assumption; apply Hc.
Qed.

(** A number holding an integer below [2^53] in magnitude gives it back. *)
Lemma truncate_of_int z : - 2 ^ 53 < z < 2 ^ 53 -> truncate (of_int z) = z.
Proof.
  intros Hz.
  assert (Hgen : forall s p, Zpos p < 2 ^ 53 ->
            truncate (of_int (cond_Zopp s (Zpos p))) = cond_Zopp s (Zpos p)).
  { intros s p Hp. destruct (of_int_finite s p Hp) as (m & e & -> & _ & He & Hv).
    unfold truncate. rewrite Z.shiftl_div_pow2 by lia. rewrite Hv.
    rewrite Z.div_mul; [reflexivity|].
    apply Z.pow_nonzero; lia. }
  destruct z as [|p|p].
  - reflexivity.
  - apply (Hgen false p). lia.
  - apply (Hgen true p). lia.
Qed.

Lemma add_of_int a b :
  0 < a -> 0 < b -> a + b < 2 ^ 53 -> (of_int a + of_int b)%js = of_int (a + b).
Proof.
  intros Ha Hb Hab. destruct a as [|pa|pa], b as [|pb|pb]; try lia.
  destruct (of_int_finite false pa ltac:(lia)) as (ma & ea & Hfa & Hca & Hea & Hva).
  destruct (of_int_finite false pb ltac:(lia)) as (mb & eb & Hfb & Hcb & Heb & Hvb).
  cbn [cond_Zopp] in Hfa, Hfb. rewrite Hfa, Hfb. unfold add, SFadd.
  set (ez := Z.min ea eb).
  rewrite (shl_align_value ma ea ez), (shl_align_value mb eb ez) by (unfold ez; lia).
  cbn [cond_Zopp]. rewrite Hva, Hvb.
  rewrite <- !Z.mul_assoc, <- !Z.pow_add_r by (unfold ez; lia).
  replace (- ea + (ea - ez)) with (- ez) by lia.
  replace (- eb + (eb - ez)) with (- ez) by lia.
  rewrite <- Z.mul_add_distr_r.
  assert (Hpz : 0 < 2 ^ (- ez)) by (apply Z.pow_pos_nonneg; unfold ez; lia).
  destruct ((Zpos pa + Zpos pb) * 2 ^ (- ez)) as [|S|S] eqn:HS; try nia.
  cbn [binary_normalize].
  replace ez with (0 - (- ez)) at 1 by lia.
  change (Zpos pa + Zpos pb) with (Zpos (pa + pb)) in *.
  destruct Hca as (_ & Hea' & _), Hcb as (_ & Heb' & _).
  rewrite (binary_round_value false S (pa + pb) (- ez) 0);
    try (unfold ez; lia); [reflexivity | symmetry; exact HS].
Qed.

Lemma sub_of_int a b :
  0 < b -> b <= a -> a < 2 ^ 53 -> (of_int a - of_int b)%js = of_int (a - b).
Proof.
  intros Hb Hba Ha. destruct a as [|pa|pa], b as [|pb|pb]; try lia.
  destruct (of_int_finite false pa ltac:(lia)) as (ma & ea & Hfa & Hca & Hea & Hva).
  destruct (of_int_finite false pb ltac:(lia)) as (mb & eb & Hfb & Hcb & Heb & Hvb).
  cbn [cond_Zopp] in Hfa, Hfb. rewrite Hfa, Hfb. unfold sub, SFsub.
  set (ez := Z.min ea eb).
  rewrite (shl_align_value ma ea ez), (shl_align_value mb eb ez) by (unfold ez; lia).
  cbn [cond_Zopp]. rewrite Hva, Hvb.
  rewrite <- !Z.mul_assoc, <- !Z.pow_add_r by (unfold ez; lia).
  replace (- ea + (ea - ez)) with (- ez) by lia.
  replace (- eb + (eb - ez)) with (- ez) by lia.
  rewrite <- Z.mul_sub_distr_r.
  assert (Hpz : 0 < 2 ^ (- ez)) by (apply Z.pow_pos_nonneg; unfold ez; lia).
  destruct (Zpos pa - Zpos pb) as [|d|d] eqn:Hd; try lia.
  - reflexivity.
  - destruct (Zpos d * 2 ^ (- ez)) as [|S|S] eqn:HS; try nia.
    cbn [binary_normalize].
    replace ez with (0 - (- ez)) at 1 by lia.
    destruct Hca as (_ & Hea' & _), Hcb as (_ & Heb' & _).
    rewrite (binary_round_value false S d (- ez) 0);
      try (unfold ez; lia); [reflexivity | symmetry; exact HS].
Qed.

Lemma lt_of_int_zero v :
  - 2 ^ 53 < v < 2 ^ 53 -> (of_int v < of_int 0)%js = (v <? 0).
Proof.
  intros Hv. destruct v as [|p|p].
  - reflexivity.
  - destruct (of_int_finite false p ltac:(lia)) as (m & e & Hf & _).
    cbn [cond_Zopp] in Hf. rewrite Hf. reflexivity.
  - destruct (of_int_finite true p ltac:(lia)) as (m & e & Hf & _).
    change (cond_Zopp true (Zpos p)) with (Zneg p) in Hf. rewrite Hf. reflexivity.
Qed.

(** ** 32-bit integers *)

Lemma wrap32_range z : int32 (wrap32 z).
Proof.
  unfold int32, wrap32. change (2 ^ 32) with 4294967296.
  change (2 ^ 31) with 2147483648.
  pose proof (Z.mod_pos_bound z 4294967296 eq_refl) as Hb.
  destruct (Z.ltb_spec (z mod 4294967296) 2147483648); lia.
Qed.

Lemma wrap32_id z : int32 z -> wrap32 z = z.
Proof.
  unfold int32, wrap32. change (2 ^ 32) with 4294967296.
  change (2 ^ 31) with 2147483648. intros Hz.
  destruct (Z_lt_le_dec z 0) as [Hneg | Hpos].
  - assert (Hm : z mod 4294967296 = z + 4294967296).
    { symmetry. apply (Z.mod_unique z 4294967296 (-1)); lia. }
    rewrite Hm. destruct (Z.ltb_spec (z + 4294967296) 2147483648); lia.
  - rewrite Z.mod_small by lia.
    destruct (Z.ltb_spec z 2147483648); lia.
Qed.

Lemma int32_small z : int32 z -> - 2 ^ 53 < z < 2 ^ 53.
Proof.
  unfold int32. change (2 ^ 31) with 2147483648.
  change (2 ^ 53) with 9007199254740992. lia.
Qed.

Lemma ToInt32_range value : int32 (ToInt32 value).
Proof. apply wrap32_range. Qed.

(** A number holding a 32-bit integer converts back to it. *)
Lemma ToInt32_of_int z : int32 z -> ToInt32 (of_int z) = z.
Proof.
  intros Hz. unfold ToInt32.
  rewrite truncate_of_int by (apply int32_small; assumption).
  now apply wrap32_id.
Qed.

Lemma toInt_of_ToInt32 value : toInt value = of_int (ToInt32 value).
Proof.
  unfold toInt, sar. change (0 mod 32) with 0. now rewrite Z.shiftr_0_r.
Qed.

Lemma shiftr_bound y k : 0 <= y -> 0 <= k -> 0 <= Z.shiftr y k <= y.
Proof.
  intros Hy Hk. rewrite Z.shiftr_div_pow2 by assumption.
  assert (0 < 2 ^ k) by (apply Z.pow_pos_nonneg; lia). split.
  - apply Z.div_pos; lia.
  - apply Z.div_le_upper_bound; [assumption | nia].
Qed.

(** [y | (y >> k)] on a number holding a non-negative 32-bit integer. *)
Lemma bor_sar_of_int y k :
  0 <= y < 2 ^ 31 -> 0 <= k < 32 ->
  bor (of_int y) (sar (of_int y) k) = of_int (Z.lor y (Z.shiftr y k)).
Proof.
  intros Hy Hk. pose proof (shiftr_bound y k ltac:(lia) ltac:(lia)) as Hs.
  unfold bor, sar. rewrite Z.mod_small by lia.
  rewrite !ToInt32_of_int by (unfold int32; lia). reflexivity.
Qed.

(** ** The bit smear of [nextPowerOfTwo] *)

Section Smear.

Variable x : Z.
Hypothesis x_range : 0 <= x < 2 ^ 31.

Lemma x_high_bits j : 31 <= j -> Z.testbit x j = false.
Proof.
  intros Hj. destruct (Z.eq_dec x 0) as [-> | Hx].
  - apply Z.bits_0.
  - apply Z.bits_above_log2; [lia|].
    assert (Z.log2 x < 31) by (apply Z.log2_lt_pow2; lia). lia.
Qed.

Lemma window_bound w y : window x w y -> 0 <= y < 2 ^ 31.
Proof.
  intros [Hy Hw]. split; [assumption|].
  destruct (Z_lt_le_dec y (2 ^ 31)) as [|Hge]; [assumption | exfalso].
  assert (Hpos : 0 < y) by (change (2 ^ 31) with 2147483648 in Hge; lia).
  assert (Hlog : 31 <= Z.log2 y) by (apply Z.log2_le_pow2; lia).
  pose proof (Z.bit_log2 y Hpos) as Hbit.
  apply Hw in Hbit; [|lia]. destruct Hbit as (j & Hj & Hxj).
  rewrite x_high_bits in Hxj by lia. discriminate.
Qed.

Lemma window_start : window x 1 x.
Proof.
  split; [lia|]. intros i Hi. split.
  - intros H. exists i. split; [lia | assumption].
  - intros (j & Hj & H). now replace i with j by lia.
Qed.

Lemma window_step w y :
  0 < w < 32 -> window x w y -> window x (2 * w) (Z.lor y (Z.shiftr y w)).
Proof.
  intros Hw [Hy0 Hy]. split.
  - apply Z.lor_nonneg. split; [assumption|]. apply Z.shiftr_nonneg. assumption.
  - intros i Hi. rewrite Z.lor_spec, Z.shiftr_spec, orb_true_iff by assumption.
    rewrite (Hy i Hi), (Hy (i + w)) by lia. split.
    + intros [(j & Hj & H) | (j & Hj & H)]; exists j; (split; [lia | assumption]).
    + intros (j & Hj & H). destruct (Z_lt_le_dec j (i + w)).
      * left. exists j. split; [lia | assumption].
      * right. exists j. split; [lia | assumption].
Qed.

Lemma smear_window : window x 32 (smear x).
Proof.
  unfold smear. cbv zeta.
  apply (window_step 16); [lia|].
  apply (window_step 8); [lia|].
  apply (window_step 4); [lia|].
  apply (window_step 2); [lia|].
  apply (window_step 1); [lia|].
  exact window_start.
Qed.

(** The five steps of the source, on numbers, compute the smear of the
    integer they hold. *)
Lemma smear_number :
  (let value := of_int x in
   let value := bor value (sar value 1) in
   let value := bor value (sar value 2) in
   let value := bor value (sar value 4) in
   let value := bor value (sar value 8) in
   bor value (sar value 16)) = of_int (smear x).
Proof.
  pose proof window_start as W1.
  pose proof (window_step 1 _ ltac:(lia) W1) as W2.
  pose proof (window_step 2 _ ltac:(lia) W2) as W4.
  pose proof (window_step 4 _ ltac:(lia) W4) as W8.
  pose proof (window_step 8 _ ltac:(lia) W8) as W16.
  cbv zeta. unfold smear. cbv zeta.
  rewrite (bor_sar_of_int _ 1 (window_bound _ _ W1)) by lia.
  rewrite (bor_sar_of_int _ 2 (window_bound _ _ W2)) by lia.
  rewrite (bor_sar_of_int _ 4 (window_bound _ _ W4)) by lia.
  rewrite (bor_sar_of_int _ 8 (window_bound _ _ W8)) by lia.
  rewrite (bor_sar_of_int _ 16 (window_bound _ _ W16)) by lia.
  reflexivity.
Qed.

(** A full window over a value below [2^31] is a block of ones up to the
    leading bit of [x]. *)
Lemma window_ones y : 0 < x -> window x 32 y -> y = 2 ^ (Z.succ (Z.log2 x)) - 1.
Proof.
  intros Hx [Hy0 Hy].
  assert (Hlog : 0 <= Z.log2 x < 31).
  { split; [apply Z.log2_nonneg | apply Z.log2_lt_pow2; lia]. }
  replace (2 ^ Z.succ (Z.log2 x) - 1) with (Z.ones (Z.succ (Z.log2 x)))
    by (rewrite Z.ones_equiv; lia).
  apply Z.bits_inj'. intros i Hi.
  destruct (Z_lt_le_dec i (Z.succ (Z.log2 x))) as [Hlt | Hge].
  - rewrite Z.ones_spec_low by lia. apply Hy; [assumption|].
    exists (Z.log2 x). split; [lia | now apply Z.bit_log2].
  - rewrite Z.ones_spec_high by lia.
    destruct (Z.testbit y i) eqn:E; [|reflexivity].
    apply Hy in E; [|assumption]. destruct E as (j & Hj & H).
    rewrite Z.bits_above_log2 in H by lia. discriminate.
Qed.

Lemma window_zero y : x = 0 -> window x 32 y -> y = 0.
Proof.
  intros Hx [Hy0 Hy]. apply Z.bits_inj'. intros i Hi. rewrite Z.bits_0.
  destruct (Z.testbit y i) eqn:E; [|reflexivity].
  apply Hy in E; [|assumption]. destruct E as (j & _ & H).
  rewrite Hx, Z.bits_0 in H. discriminate.
Qed.

End Smear.

(** The integer computed for a positive 32-bit argument. *)
Lemma nextPowerOfTwo_int_pos v :
  0 < v < 2 ^ 31 -> nextPowerOfTwo_int v = 2 ^ Z.log2_up v.
Proof.
  intros Hv. unfold nextPowerOfTwo_int.
  destruct (Z.ltb_spec v 0) as [|_]; [lia|].
  pose proof (smear_window (v - 1) ltac:(lia)) as Hw.
  destruct (Z.eq_dec v 1) as [-> | Hne].
  - rewrite (window_zero (1 - 1) _ eq_refl Hw). reflexivity.
  - rewrite (window_ones (v - 1) ltac:(lia) _ ltac:(lia) Hw).
    unfold Z.log2_up. destruct (Z.compare_spec 1 v); try lia.
    replace (Z.pred v) with (v - 1) by lia. lia.
Qed.

Lemma nextPowerOfTwo_int_nonpos v : v <= 0 -> nextPowerOfTwo_int v = 0.
Proof.
  intros Hv. unfold nextPowerOfTwo_int.
  destruct (Z.ltb_spec v 0) as [|Hge]; [reflexivity|].
  replace v with 0 by lia. reflexivity.
Qed.

Lemma nextPowerOfTwo_int_range v : int32 v -> 0 <= nextPowerOfTwo_int v <= 2 ^ 31.
Proof.
  intros Hr. destruct (Z_lt_le_dec 0 v) as [Hpos | Hle].
  - rewrite nextPowerOfTwo_int_pos by (unfold int32 in Hr; lia). split.
    + apply Z.pow_nonneg. lia.
    + apply Z.pow_le_mono_r; [lia|].
      apply Z.log2_up_le_pow2; [assumption | unfold int32 in Hr; lia].
  - rewrite nextPowerOfTwo_int_nonpos by assumption.
    change (2 ^ 31) with 2147483648. lia.
Qed.

(** The number computed by the source holds the integer
    [nextPowerOfTwo_int] of the 32-bit integer of its argument: the
    decrement and the increment are exact on this range. *)
Lemma nextPowerOfTwo_reading value :
  nextPowerOfTwo value = of_int (nextPowerOfTwo_int (ToInt32 value)).
Proof.
  unfold nextPowerOfTwo. rewrite toInt_of_ToInt32.
  pose proof (ToInt32_range value) as Hr. set (v := ToInt32 value) in *.
  cbv zeta. rewrite lt_of_int_zero by (apply int32_small; assumption).
  unfold nextPowerOfTwo_int. destruct (Z.ltb_spec v 0) as [|Hge]; [reflexivity|].
  destruct (Z.eq_dec v 0) as [-> | Hne]; [vm_compute; reflexivity|].
  assert (Hv : 0 < v < 2 ^ 31) by (unfold int32 in Hr; lia).
  rewrite (sub_of_int v 1) by (pose proof (int32_small v Hr); lia).
  pose proof (smear_number (v - 1) ltac:(lia)) as Hs. cbv zeta in Hs.
  rewrite Hs.
  pose proof (window_bound (v - 1) ltac:(lia) _ _
                (smear_window (v - 1) ltac:(lia))) as Hb.
  destruct (Z.eq_dec (smear (v - 1)) 0) as [-> | Hnz]; [reflexivity|].
  apply add_of_int; lia.
Qed.

Lemma truncate_nextPowerOfTwo value :
  truncate (nextPowerOfTwo value) = nextPowerOfTwo_int (ToInt32 value).
Proof.
  rewrite nextPowerOfTwo_reading. apply truncate_of_int.
  pose proof (nextPowerOfTwo_int_range _ (ToInt32_range value)) as Hr.
  change (2 ^ 31) with 2147483648 in Hr.
  change (2 ^ 53) with 9007199254740992. lia.
Qed.

Lemma log2_up_smallest v :
  0 < v -> smallest_power_of_two_ge v (2 ^ Z.log2_up v).
Proof.
  intros Hv. pose proof (Z.log2_up_nonneg v) as Hn. repeat split.
  - exists (Z.log2_up v). split; [assumption | reflexivity].
  - destruct (Z.eq_dec v 1) as [-> | Hne]; [reflexivity|].
    apply Z.log2_up_spec. lia.
  - intros p (k & Hk & ->) Hle.
    apply Z.pow_le_mono_r; [lia|].
    destruct (Z_lt_le_dec k (Z.log2_up v)) as [Hlt | ]; [exfalso | assumption].
    destruct (Z.eq_dec v 1) as [-> | Hne].
    + change (Z.log2_up 1) with 0 in Hlt. lia.
    + pose proof (Z.log2_up_spec v ltac:(lia)) as [Hlow _].
      assert (2 ^ k <= 2 ^ Z.pred (Z.log2_up v)) by (apply Z.pow_le_mono_r; lia).
      lia.
Qed.

(** ** Truncation *)

(** [truncate] discards the fraction: it is the quotient, rounded toward
    zero, of the signed mantissa scaled by the exponent. *)
Lemma truncate_quot s m e :
  truncate (S754_finite s m e) =
  Z.quot (cond_Zopp s (Zpos m) * 2 ^ Z.max e 0) (2 ^ Z.max (- e) 0).
Proof.
  unfold truncate. destruct (Z_lt_le_dec e 0) as [Hneg | Hpos].
  - rewrite Z.max_r, Z.max_l by lia. rewrite Z.mul_1_r.
    rewrite Z.shiftl_div_pow2 by lia.
    assert (0 < 2 ^ (- e)) by (apply Z.pow_pos_nonneg; lia).
    unfold cond_Zopp. destruct s.
    + rewrite Z.quot_opp_l by lia.
      rewrite Z.quot_div_nonneg by lia. reflexivity.
    + rewrite Z.quot_div_nonneg by lia. reflexivity.
  - rewrite Z.max_l, Z.max_r by lia. rewrite Z.quot_1_r.
    rewrite Z.shiftl_mul_pow2 by lia.
    unfold cond_Zopp. destruct s; [rewrite Z.mul_opp_l|]; reflexivity.
Qed.

(** A double strictly between -1 and 1 has integer part 0. *)
Lemma truncate_fraction value :
  is_double value = true ->
  (of_int (-1) < value)%js = true -> (value < of_int 1)%js = true ->
  truncate value = 0.
Proof.
  destruct value as [s | s | | s m e]; intros Hd Hlo Hhi; try reflexivity.
  destruct (is_double_canon _ _ _ Hd) as (Hm & _).
  assert (He : e < -52 \/ (e = -52 /\ Zpos m < 2 ^ 52)).
  { destruct s.
    - change (of_int (-1)) with (S754_finite true 4503599627370496 (-52)) in Hlo.
      apply lt_finite_neg in Hlo. destruct Hlo as [Hlt | [Heq Hlt]].
      + left. exact Hlt.
      + right. split; [symmetry; exact Heq | exact (Pos2Z.pos_lt_pos _ _ Hlt)].
    - change (of_int 1) with (S754_finite false 4503599627370496 (-52)) in Hhi.
      apply lt_finite_pos in Hhi. destruct Hhi as [Hlt | [Heq Hlt]].
      + left. exact Hlt.
      + right. split; [exact Heq | exact (Pos2Z.pos_lt_pos _ _ Hlt)]. }
  unfold truncate. rewrite Z.shiftl_div_pow2 by lia.
  rewrite Z.div_small; [destruct s; reflexivity|].
  split; [lia|]. destruct He as [He | [-> Hlt]].
  - apply Z.lt_le_trans with (1 := Hm). apply Z.pow_le_mono_r; lia.
  - exact Hlt.
Qed.

(** ** nextPowerOfTwo *)

(** C1, as the code has it: the argument is truncated toward zero and
    reduced to 32 bits; when that integer is negative or zero the result is
    0, and when it is positive the result is the smallest power of two at
    least equal to it, at most [2^31] and never wrapped (the final
    increment is a number addition).  [nextPowerOfTwo(0) == 0],
    [nextPowerOfTwo(1) == 1], [nextPowerOfTwo(5) == 8] and
    [nextPowerOfTwo(-3) == 0]. *)
Theorem nextPowerOfTwo_spec :
  forall value : number,
    let v := ToInt32 value in
    (toInt value = of_int v /\ v = wrap32 (truncate value) /\ int32 v) /\
    (forall s m e, value = S754_finite s m e ->
       truncate value =
       Z.quot (cond_Zopp s (Zpos m) * 2 ^ Z.max e 0) (2 ^ Z.max (- e) 0)) /\
    (v < 0 -> nextPowerOfTwo value = of_int 0) /\
    (v = 0 -> nextPowerOfTwo value = of_int 0) /\
    (0 < v ->
     exists r, nextPowerOfTwo value = of_int r /\
               truncate (nextPowerOfTwo value) = r /\
               smallest_power_of_two_ge v r /\ r <= 2 ^ 31) /\
    nextPowerOfTwo (of_int 0) = of_int 0 /\
    nextPowerOfTwo (of_int 1) = of_int 1 /\
    nextPowerOfTwo (of_int 5) = of_int 8 /\
    nextPowerOfTwo (of_int (-3)) = of_int 0.
Proof.
  intros value v. pose proof (ToInt32_range value) as Hr. fold v in Hr.
  split; [split; [apply toInt_of_ToInt32 | split; [reflexivity | assumption]]|].
  split; [intros s m e ->; apply truncate_quot|].
  split; [|split; [|split]].
  - intros Hv. rewrite nextPowerOfTwo_reading. fold v.
    now rewrite nextPowerOfTwo_int_nonpos by lia.
  - intros Hv. rewrite nextPowerOfTwo_reading. fold v.
    now rewrite nextPowerOfTwo_int_nonpos by lia.
  - intros Hv. exists (2 ^ Z.log2_up v).
    assert (Hint : nextPowerOfTwo_int v = 2 ^ Z.log2_up v)
      by (apply nextPowerOfTwo_int_pos; unfold int32 in Hr; lia).
    split; [|split; [|split]].
    + rewrite nextPowerOfTwo_reading. fold v. now rewrite Hint.
    + rewrite truncate_nextPowerOfTwo. fold v. exact Hint.
    + now apply log2_up_smallest.
    + rewrite <- Hint. now apply nextPowerOfTwo_int_range.
  - repeat split; vm_compute; reflexivity.
Qed.

(** C1 as stated fails at 0: the truncation of 0 is non-negative, yet the
    result, 0, is not a power of two. *)
Lemma nextPowerOfTwo_zero_not_power :
  0 <= ToInt32 (of_int 0) /\
  truncate (nextPowerOfTwo (of_int 0)) = 0 /\
  ~ smallest_power_of_two_ge (ToInt32 (of_int 0))
      (truncate (nextPowerOfTwo (of_int 0))).
Proof.
  split; [vm_compute; discriminate|]. split; [vm_compute; reflexivity|].
  intros [(k & Hk & Hpow) _].
  assert (H0 : truncate (nextPowerOfTwo (of_int 0)) = 0) by (vm_compute; reflexivity).
  rewrite H0 in Hpow.
  assert (0 < 2 ^ k) by (apply Z.pow_pos_nonneg; lia). lia.
Qed.

(** ** repeat *)

Lemma ge_refl_finite m e :
  (S754_finite false m e >= S754_finite false m e)%js = true.
Proof. apply le_finite_pos. right. split; [reflexivity | lia]. Qed.

(** Adding a negative double of smaller magnitude to a positive double
    gives a double between 0 and the positive one. *)
Lemma add_negative_smaller md ed m e :
  canon md ed -> canon m e -> e <= ed -> Zpos m < Zpos md * 2 ^ (ed - e) ->
  exists m' e',
    (S754_finite false md ed + S754_finite true m e)%js = S754_finite false m' e' /\
    (S754_finite false md ed >= S754_finite false m' e')%js = true.
Proof.
  intros Hcd Hc He Hlt. unfold add, SFadd. rewrite Z.min_r by assumption.
  rewrite (shl_align_value md ed e He), (shl_align_value m e e (Z.le_refl e)).
  rewrite Z.sub_diag, Z.mul_1_r. cbn [cond_Zopp].
  destruct (Zpos md * 2 ^ (ed - e) + - Zpos m) as [|S|S] eqn:HS; try lia.
  cbn [binary_normalize].
  destruct (binary_round_upper S e md ed) as (m' & e' & Hr & _ & Hge);
    try assumption; try lia.
  - destruct Hc as (_ & He' & _). lia.
  - exists m', e'. split; assumption.
Qed.

(** C2, as the code has it: for a positive [length] and a finite [t],
    [repeat(t, length)] lies in the closed interval from 0 to [length]; it
    is strictly below [length] when [t > 0], and it is
    [length + (t % length)] otherwise, which is [length] itself when the
    remainder is zero.  [repeat(7, 5) == 2], [repeat(-2, 5) == 3],
    [repeat(0, 5) == 5] and [repeat(-5, 5) == 5]. *)
Theorem repeat_range :
  forall t length : number,
    is_double t = true -> is_double length = true ->
    is_finite t = true -> (length > of_int 0)%js = true ->
    (repeat t length >= of_int 0)%js = true /\
    (length >= repeat t length)%js = true /\
    ((t > of_int 0)%js = true ->
       repeat t length = (t mod length)%js /\
       (repeat t length < length)%js = true) /\
    ((t > of_int 0)%js = false ->
       repeat t length = (length + t mod length)%js /\
       (forall s, (t mod length)%js = S754_zero s -> repeat t length = length)) /\
    repeat (of_int 7) (of_int 5) = of_int 2 /\
    repeat (of_int (-2)) (of_int 5) = of_int 3 /\
    repeat (of_int 0) (of_int 5) = of_int 5 /\
    repeat (of_int (-5)) (of_int 5) = of_int 5.
Proof.
  intros t length Hdt Hdl Hft Hpos.
  assert (Hex : repeat (of_int 7) (of_int 5) = of_int 2 /\
                repeat (of_int (-2)) (of_int 5) = of_int 3 /\
                repeat (of_int 0) (of_int 5) = of_int 5 /\
                repeat (of_int (-5)) (of_int 5) = of_int 5)
    by (repeat split; vm_compute; reflexivity).
  assert (Hmain :
    (repeat t length >= of_int 0)%js = true /\
    (length >= repeat t length)%js = true /\
    ((t > of_int 0)%js = true ->
       repeat t length = (t mod length)%js /\
       (repeat t length < length)%js = true) /\
    ((t > of_int 0)%js = false ->
       repeat t length = (length + t mod length)%js)).
  2: { destruct Hmain as (H1 & H2 & H3 & H4).
       split; [exact H1|]. split; [exact H2|]. split; [exact H3|].
       split; [|exact Hex].
       intros Hle. split; [exact (H4 Hle)|].
       intros s Hz. rewrite (H4 Hle), Hz.
       destruct length as [sl | sl | | sl md ed]; try discriminate;
         destruct sl; try discriminate; destruct s; reflexivity. }
  clear Hex. change (of_int 0) with (S754_zero false) in *.
  destruct length as [sl | sl | | sl md ed]; try discriminate.
  - destruct sl; try discriminate.
    destruct t as [st | st | | st mn en]; try discriminate.
    + destruct st; repeat split; (reflexivity || discriminate).
    + destruct st; repeat split; (reflexivity || discriminate).
  - destruct sl; try discriminate. clear Hpos.
    pose proof (is_double_canon _ _ _ Hdl) as Hcl.
    destruct t as [st | st | | st mn en]; try discriminate.
    + (* t is a zero *)
      assert (Hr : repeat (S754_zero st) (S754_finite false md ed) =
                   S754_finite false md ed) by (destruct st; reflexivity).
      rewrite Hr. split; [reflexivity|]. split; [apply ge_refl_finite|].
      split; [destruct st; discriminate | destruct st; reflexivity].
    + pose proof (is_double_canon _ _ _ Hdt) as Hct.
      destruct st.
      * (* t is negative *)
        assert (Hr : repeat (S754_finite true mn en) (S754_finite false md ed) =
                     (S754_finite false md ed +
                      S754_finite true mn en mod S754_finite false md ed)%js)
          by reflexivity.
        rewrite Hr.
        assert (Hb : forall x,
          (S754_finite false md ed + S754_finite true mn en mod
             S754_finite false md ed)%js = x ->
          (x >= S754_zero false)%js = true /\
          (S754_finite false md ed >= x)%js = true).
        { intros x <-.
          destruct (rem_finite true mn en false md ed Hct Hcl)
            as [-> | (m & e & -> & Hc & He & Hlt)].
          - split; [reflexivity | apply ge_refl_finite].
          - destruct (add_negative_smaller md ed m e Hcl Hc He Hlt)
              as (m' & e' & -> & Hge).
            split; [reflexivity | exact Hge]. }
        destruct (Hb _ eq_refl) as [Hlo Hhi].
        split; [exact Hlo|]. split; [exact Hhi|].
        split; [discriminate | reflexivity].
      * (* t is positive *)
        assert (Hr : repeat (S754_finite false mn en) (S754_finite false md ed) =
                     (S754_finite false mn en mod S754_finite false md ed)%js)
          by reflexivity.
        rewrite Hr.
        destruct (rem_finite false mn en false md ed Hct Hcl)
          as [-> | (m & e & -> & Hc & He & Hlt)].
        -- repeat split; (reflexivity || discriminate).
        -- assert (Hv : Zpos m * 2 ^ (e - e) < Zpos md * 2 ^ (ed - e))
             by (rewrite Z.sub_diag, Z.mul_1_r; exact Hlt).
           split; [reflexivity|].
           split; [apply (canon_le m md e ed e Hc Hcl); lia|].
           split; [|discriminate]. intros _. split; [reflexivity|].
           apply (canon_lt m md e ed e Hc Hcl); lia.
Qed.

(** C2 for [t = -7.5], [length = 2]. *)
Lemma repeat_range_witness :
  (repeat (dyadic (-15) (-1)) (of_int 2) >= of_int 0)%js = true /\
  (of_int 2 >= repeat (dyadic (-15) (-1)) (of_int 2))%js = true.
Proof.
  pose proof (repeat_range (dyadic (-15) (-1)) (of_int 2)
                eq_refl eq_refl eq_refl eq_refl) as (H1 & H2 & _).
  split; [exact H1 | exact H2].
Defined.

(** C2 as stated fails at [t = 0]: [repeat(0, 5)] is 5, which is not
    strictly less than the length 5; the same happens at [t = -5], and a
    non-finite [t] gives NaN. *)
Lemma repeat_reaches_length :
  (of_int 5 > of_int 0)%js = true /\
  repeat (of_int 0) (of_int 5) = of_int 5 /\
  (repeat (of_int 0) (of_int 5) < of_int 5)%js = false /\
  (repeat (of_int (-5)) (of_int 5) < of_int 5)%js = false /\
  repeat NaN (of_int 5) = NaN.
Proof. repeat split; vm_compute; reflexivity. Qed.

(** ** moveTowards *)

(** [moveTowards(0, 10, 3) == 3], and [moveTowards(8, 10, 3) == 10]: the
    step is cut at the target. *)
Example moveTowards_values :
  moveTowards (of_int 0) (of_int 10) (of_int 3) = of_int 3 /\
  moveTowards (of_int 8) (of_int 10) (of_int 3) = of_int 10.
Proof. split; vm_compute; reflexivity. Qed.

(** When [current] already equals [target], no snap branch is taken and
    the result is [current + maxDelta]. *)
Lemma moveTowards_at_target current maxDelta :
  moveTowards current current maxDelta = (current + maxDelta)%js.
Proof.
  unfold moveTowards, gt. rewrite !lt_irrefl.
  rewrite !andb_false_l, andb_false_r. reflexivity.
Qed.

(** C3 at [current = target = 5], [maxDelta = 3]: the distance to the
    target, 0, is within [maxDelta], and the result is 8, not the
    target. *)
Theorem moveTowards_at_target_overshoots :
  (of_int 3 > of_int 0)%js = true /\
  (Math_abs (of_int 5 - of_int 5) > of_int 3)%js = false /\
  moveTowards (of_int 5) (of_int 5) (of_int 3) = of_int 8 /\
  (moveTowards (of_int 5) (of_int 5) (of_int 3) === of_int 5)%js = false.
Proof.
  rewrite moveTowards_at_target. repeat split; vm_compute; reflexivity.
Qed.

(** ** lerpUnclamped *)

(** C4: outside [0,1] the result is [a + abs(b - a) * t]; otherwise it is
    [lerp(a, b, t)]; [lerpUnclamped(0, 10, 2) == 20] and
    [lerpUnclamped(10, 0, 2) == 30]. *)
Theorem lerpUnclamped_spec :
  forall a b t : number,
    lerpUnclamped a b t =
      (if (t < of_int 0)%js || (t > of_int 1)%js
       then (a + Math_abs (b - a) * t)%js
       else lerp a b t) /\
    lerpUnclamped (of_int 0) (of_int 10) (of_int 2) = of_int 20 /\
    lerpUnclamped (of_int 10) (of_int 0) (of_int 2) = of_int 30.
Proof.
  intros a b t. split.
  - unfold lerpUnclamped, lerp.
    destruct ((t < of_int 0)%js || (t > of_int 1)%js); reflexivity.
  - split; vm_compute; reflexivity.
Qed.

(** ** round *)

(** Halves go to the even neighbour: [round(0.5) == 0], [round(1.5) == 2],
    [round(-1.5) == -2], [round(-2.5) == -2]; and [round(2.4) == 2],
    [round(2.75) == 3]. *)
Example round_values :
  round (dyadic 1 (-1)) = of_int 0 /\
  round (dyadic 3 (-1)) = of_int 2 /\
  round (dyadic (-3) (-1)) = of_int (-2) /\
  round (dyadic (-5) (-1)) = of_int (-2) /\
  round (S754_finite false 5404319552844595 (-51)) = of_int 2 /\
  round (dyadic 11 (-2)) = of_int 3.
Proof. repeat split; vm_compute; reflexivity. Qed.

(** The two values of the documentation: [round(2.5) == 2] and
    [round(3.5) == 4]. *)
Example round_documented_values :
  round (dyadic 5 (-1)) = of_int 2 /\
  round (dyadic 7 (-1)) = of_int 4.
Proof. split; vm_compute; reflexivity. Qed.

(** C5 at [f = 0.49999999999999994], the double just below 0.5
    ([0.5 - 2^-54]): [f] lies strictly between 0 and 0.5, so it is at no .5
    boundary, yet [f + 0.5] rounds to 1, which is [Math.ceil(f)]: the tie
    branch is taken, 1 is odd, and the result is [f - 0.5 = -2^-54]. That is
    neither [Math.round(f)], which is 0, nor an integer. *)
Theorem round_below_half_not_integer :
  let f := S754_finite false 9007199254740991 (-54) in
  is_double f = true /\
  (of_int 0 < f)%js = true /\ (f < dyadic 1 (-1))%js = true /\
  (f + IS_INTEGER)%js = of_int 1 /\
  Math_ceil f = of_int 1 /\
  ((f + IS_INTEGER) mod of_int 2 === of_int 0)%js = false /\
  Math_round f = of_int 0 /\
  round f = S754_finite true 4503599627370496 (-106) /\
  (round f === Math_round f)%js = false /\
  (Math_ceil (round f) === round f)%js = false /\
  (Math_round (round f) === round f)%js = false.
Proof. cbv zeta. repeat split; vm_compute; reflexivity. Qed.

(** ** inverseLerp *)

Lemma sub_equal a b : (a === b)%js = true -> is_finite a = true ->
  (b - a)%js = S754_zero false \/ (b - a)%js = S754_zero true.
Proof.
  unfold eq, SFeqb.
  destruct a as [sa | sa | | sa ma ea], b as [sb | sb | | sb mb eb];
    intros Heq Hfin; cbn [SFcompare is_finite] in Heq, Hfin;
    try discriminate.
  - destruct sa, sb; simpl; auto.
  - destruct sb; discriminate.
  - destruct sb; discriminate.
  - destruct sa; discriminate.
  - destruct sb; discriminate.
  - change (Pos.compare_cont Eq ma mb) with (Pos.compare ma mb) in Heq.
    assert (Hs : sa = sb) by (destruct sa, sb; (reflexivity || discriminate)).
    subst sb.
    assert (He : ea = eb /\ ma = mb).
    { destruct (Z.compare_spec ea eb) as [He | He | He],
        (Pos.compare_spec ma mb) as [Hm | Hm | Hm], sa;
        try discriminate; split; assumption. }
    destruct He as [-> ->]. left. unfold sub, SFsub.
    now rewrite Z.sub_diag.
Qed.

Lemma div_by_zero x s : is_special (x / S754_zero s)%js = true.
Proof. destruct x; reflexivity. Qed.

Lemma div_by_nan x : (x / S754_nan)%js = S754_nan.
Proof. destruct x; reflexivity. Qed.

Lemma sub_infinities a b :
  (a === b)%js = true -> is_finite a = false -> (b - a)%js = S754_nan.
Proof.
  unfold eq, SFeqb.
  destruct a as [sa | sa | | sa ma ea], b as [sb | sb | | sb mb eb];
    intros Heq Hfin; cbn [SFcompare is_finite] in Heq, Hfin;
    try discriminate.
  - destruct sa; discriminate.
  - destruct sa, sb; try discriminate; reflexivity.
  - destruct sa; discriminate.
Qed.

(** C7: [inverseLerp] is a total function on numbers; when [a === b] its
    result is an infinity or NaN, and in every case it is the quotient of
    [clamp(value, min(a,b), max(a,b)) - a] by [b - a]. *)
Theorem inverseLerp_spec :
  forall a b value : number,
    ((a === b)%js = true -> is_special (inverseLerp a b value) = true) /\
    inverseLerp a b value =
      ((clamp value (Math_min a b) (Math_max a b) - a) / (b - a))%js /\
    inverseLerp (of_int 1) (of_int 1) (of_int 2) = NaN /\
    inverseLerp (of_int 0) (of_int 10) (of_int 5) = dyadic 1 (-1).
Proof.
  intros a b value. split; [|split; [reflexivity | split; vm_compute; reflexivity]].
  intros Heq. unfold inverseLerp.
  destruct (is_finite a) eqn:Hfin.
  - destruct (sub_equal a b Heq Hfin) as [-> | ->]; apply div_by_zero.
  - rewrite (sub_infinities a b Heq Hfin), div_by_nan. reflexivity.
Qed.

(** ** closestPowerOfTwo *)

(** [next >> 1] is the previous power of two for [next] from 2 to
    [2^30]. *)
Lemma sar_pow2 k :
  1 <= k <= 30 -> sar (of_int (2 ^ k)) 1 = of_int (2 ^ (k - 1)).
Proof.
  intros Hk.
  assert (Hlt : 2 ^ k < 2 ^ 31) by (apply Z.pow_lt_mono_r; lia).
  assert (Hpos : 0 < 2 ^ k) by (apply Z.pow_pos_nonneg; lia).
  unfold sar. rewrite ToInt32_of_int by (unfold int32; lia).
  change (1 mod 32) with 1. rewrite Z.shiftr_div_pow2 by lia.
  replace k with (k - 1 + 1) at 1 by lia.
  rewrite Z.pow_add_r by lia. now rewrite Z.div_mul by discriminate.
Qed.

(** [closestPowerOfTwo(5) == 4], [closestPowerOfTwo(6) == 8] and
    [closestPowerOfTwo(1073741824) == 1073741824]. *)
Example closestPowerOfTwo_values :
  closestPowerOfTwo (of_int 5) = of_int 4 /\
  closestPowerOfTwo (of_int 6) = of_int 8 /\
  closestPowerOfTwo (of_int 1073741824) = of_int 1073741824.
Proof. repeat split; vm_compute; reflexivity. Qed.

(** Above [2^30] the next power of two is [2^31], which [>>] reads as the
    32-bit integer [-2^31]: the quarter [next >> 2] is [-2^29], the test
    [next - value > next >> 2] succeeds, and the result is
    [next >> 1 = -2^30], for every integer argument up to [2^31 - 1]. *)
Lemma closestPowerOfTwo_above_2_30 v :
  2 ^ 30 < v < 2 ^ 31 -> closestPowerOfTwo (of_int v) = of_int (- 2 ^ 30).
Proof.
  intros Hv.
  assert (Hint : int32 v) by (unfold int32; lia).
  assert (Hj : Z.log2_up v = 31)
    by (apply Z.log2_up_unique; [lia | change (Z.pred 31) with 30; lia]).
  assert (Hnext : nextPowerOfTwo (of_int v) = of_int (2 ^ 31)).
  { rewrite nextPowerOfTwo_reading, (ToInt32_of_int v Hint).
    rewrite nextPowerOfTwo_int_pos by lia. now rewrite Hj. }
  unfold closestPowerOfTwo. cbv zeta. rewrite Hnext.
  rewrite (sub_of_int (2 ^ 31) v) by lia.
  change (sar (of_int (2 ^ 31)) 2) with (S754_finite true 4503599627370496 (-23)).
  change (sar (of_int (2 ^ 31)) 1) with (of_int (- 2 ^ 30)).
  destruct (2 ^ 31 - v) as [|p|p] eqn:Hd; try lia.
  destruct (of_int_finite false p ltac:(lia)) as (m & e & Hf & _).
  cbn [cond_Zopp] in Hf. rewrite Hf. reflexivity.
Qed.

(** C6 at [value = 1073741825], that is [2^30 + 1]: [next] is [2^31], a
    power of two, and [next - value = 2^30 - 1] exceeds [next >> 2], but
    [next >> 1] is [-2^30 = -1073741824], not the previous power of two
    [2^30]: the result is negative, while the closest power of two is
    [2^30], one below the argument. *)
Theorem closestPowerOfTwo_negative :
  nextPowerOfTwo (of_int 1073741825) = of_int 2147483648 /\
  sar (of_int 2147483648) 2 = of_int (-536870912) /\
  (of_int 2147483648 - of_int 1073741825)%js = of_int 1073741823 /\
  (of_int 2147483648 - of_int 1073741825 > sar (of_int 2147483648) 2)%js = true /\
  sar (of_int 2147483648) 1 = of_int (-1073741824) /\
  closestPowerOfTwo (of_int 1073741825) = of_int (-1073741824) /\
  (closestPowerOfTwo (of_int 1073741825) === of_int 1073741824)%js = false /\
  (closestPowerOfTwo (of_int 1073741825) < of_int 0)%js = true.
Proof.
  rewrite (closestPowerOfTwo_above_2_30 1073741825) by (split; reflexivity).
  repeat split; vm_compute; reflexivity.
Qed.

(** ** lerpAngle *)

(** More fuel does not change the result of a loop that has exited. *)
Lemma lerpAngle_raise_more fuel : forall a b r,
  lerpAngle_raise fuel a b = Some r -> lerpAngle_raise (S fuel) a b = Some r.
Proof.
  induction fuel as [|fuel IH]; intros a b r H; [discriminate|].
  cbn [lerpAngle_raise] in H |- *.
  destruct (a > b + STRAIGHT_ANGLE)%js; [|exact H].
  apply IH in H. exact H.
Qed.

Lemma lerpAngle_lower_more fuel : forall a b r,
  lerpAngle_lower fuel a b = Some r -> lerpAngle_lower (S fuel) a b = Some r.
Proof.
  induction fuel as [|fuel IH]; intros a b r H; [discriminate|].
  cbn [lerpAngle_lower] in H |- *.
  destruct (b > a + STRAIGHT_ANGLE)%js; [|exact H].
  apply IH in H. exact H.
Qed.

(** [lerpAngle(350, 10, 0.5) == 360] after one raising step, and
    [lerpAngle(0, -1000, 0.5) == 40] after three. *)
Example lerpAngle_values :
  lerpAngle 2 (of_int 350) (of_int 10) (dyadic 1 (-1)) = Some (of_int 360) /\
  lerpAngle 4 (of_int 0) (of_int (-1000)) (dyadic 1 (-1)) = Some (of_int 40).
Proof. split; vm_compute; reflexivity. Qed.

(** A raising loop whose step does not change [b] never exits. *)
Lemma lerpAngle_raise_stuck a b :
  (a > b + STRAIGHT_ANGLE)%js = true -> (b + FULL_ANGLE)%js = b ->
  forall fuel, lerpAngle_raise fuel a b = None.
Proof.
  intros Hcond Hfix fuel. induction fuel as [|fuel IH]; [reflexivity|].
  simpl. rewrite Hcond, Hfix. exact IH.
Qed.

(** C8 at [a = 0], [b = -2^64]: both are finite doubles, adding 360 to [b]
    rounds back to [b], and the first loop is still running after any
    number of iterations. *)
Theorem lerpAngle_diverges :
  is_double (of_int 0) = true /\ is_finite (of_int 0) = true /\
  is_double (of_int (- 2 ^ 64)) = true /\ is_finite (of_int (- 2 ^ 64)) = true /\
  (of_int (- 2 ^ 64) + FULL_ANGLE)%js = of_int (- 2 ^ 64) /\
  forall (fuel : nat) (t : number),
    lerpAngle fuel (of_int 0) (of_int (- 2 ^ 64)) t = None.
Proof.
  repeat (split; [vm_compute; reflexivity|]).
  intros fuel t. unfold lerpAngle.
  rewrite lerpAngle_raise_stuck; [reflexivity | |]; vm_compute; reflexivity.
Qed.

(** ** The degree and radian factors *)

(** C9: [deg2Rad] is [Math.PI * 2 / 360], [rad2Deg] is
    [360 / (Math.PI * 2)], and their product is within [Number.EPSILON] of
    1 (it is 1). *)
Theorem deg2Rad_rad2Deg_roundtrip :
  deg2Rad = (Math_PI * of_int 2 / of_int 360)%js /\
  rad2Deg = (of_int 360 / (Math_PI * of_int 2))%js /\
  (Math_abs (rad2Deg * deg2Rad - of_int 1) < Number_EPSILON)%js = true /\
  approximately (rad2Deg * deg2Rad)%js (of_int 1) = true.
Proof.
  assert (Hone : (rad2Deg * deg2Rad)%js = of_int 1) by (vm_compute; reflexivity).
  split; [reflexivity|]. split; [reflexivity|].
  unfold approximately. rewrite Hone. split; vm_compute; reflexivity.
Qed.

(** ** isPowerOfTwo *)

(** C10: a double strictly between -1 and 1 is truncated to 0 and
    reported as a power of two. *)
Theorem isPowerOfTwo_fraction :
  forall value : number,
    is_double value = true ->
    (of_int (-1) < value)%js = true -> (value < of_int 1)%js = true ->
    toInt value = of_int 0 /\ isPowerOfTwo value = true.
Proof.
  intros value Hd Hlo Hhi.
  assert (H0 : toInt value = of_int 0).
  { rewrite toInt_of_ToInt32. unfold ToInt32.
    rewrite (truncate_fraction value Hd Hlo Hhi). reflexivity. }
  split; [exact H0|]. unfold isPowerOfTwo. cbv zeta. rewrite H0.
  vm_compute. reflexivity.
Qed.

(** C10 at 0.5 and at -0.9. *)
Lemma isPowerOfTwo_fraction_witness :
  isPowerOfTwo (dyadic 1 (-1)) = true /\
  isPowerOfTwo (S754_finite true 8106479329266893 (-53)) = true.
Proof.
  split.
  - apply (isPowerOfTwo_fraction (dyadic 1 (-1))); reflexivity.
  - apply (isPowerOfTwo_fraction (S754_finite true 8106479329266893 (-53)));
      reflexivity.
Defined.

(** * Further properties of the functions *)

(** ** The order of numbers *)

Lemma SFcompare_antisym x y :
  SFcompare y x = match SFcompare x y with
                  | Some c => Some (CompOpp c)
                  | None => None
                  end.
Proof.
  destruct x as [sx | sx | | sx mx ex], y as [sy | sy | | sy my ey];
    try reflexivity; cbn [SFcompare];
    try (destruct sx; reflexivity); try (destruct sy; reflexivity);
    try (destruct sx, sy; reflexivity).
  change (Pos.compare_cont Eq my mx) with (Pos.compare my mx).
  change (Pos.compare_cont Eq mx my) with (Pos.compare mx my).
  rewrite (Z.compare_antisym ex ey), (Pos.compare_antisym mx my).
  destruct sx, sy; try reflexivity;
    destruct (ex ?= ey); cbn [CompOpp]; try reflexivity;
    destruct (mx ?= my)%positive; reflexivity.
Qed.

Lemma SFcompare_not_nan x y :
  not_nan x = true -> not_nan y = true -> exists c, SFcompare x y = Some c.
Proof.
  destruct x, y; try discriminate; intros _ _; cbn [SFcompare]; eauto.
Qed.

(** Among numbers other than NaN, [x < y] fails exactly when [x >= y]. *)
Lemma ge_of_not_lt x y :
  not_nan x = true -> not_nan y = true ->
  (x < y)%js = false -> (x >= y)%js = true.
Proof.
  intros Hx Hy. unfold lt, ge, SFltb, SFleb.
  rewrite (SFcompare_antisym x y).
  destruct (SFcompare_not_nan x y Hx Hy) as [[| |] ->]; cbn [CompOpp];
    (reflexivity || discriminate).
Qed.

Lemma ge_of_lt x y : (x < y)%js = true -> (y >= x)%js = true.
Proof.
  unfold lt, ge, SFltb, SFleb. destruct (SFcompare x y) as [[| |]|];
    (reflexivity || discriminate).
Qed.

Lemma ge_refl x : not_nan x = true -> (x >= x)%js = true.
Proof.
  intros Hx. unfold ge, SFleb.
  destruct (SFcompare_refl x) as [-> | H]; [reflexivity|].
  destruct (SFcompare_not_nan x x Hx Hx) as [c Hc]. congruence.
Qed.

Lemma lt_not_nan x y : (x < y)%js = true -> not_nan x = true /\ not_nan y = true.
Proof.
  unfold lt, SFltb. destruct x, y; try discriminate; split; reflexivity.
Qed.

Lemma ge_not_nan x y : (x >= y)%js = true -> not_nan x = true /\ not_nan y = true.
Proof.
  unfold ge, SFleb. destruct x, y; try discriminate; split; reflexivity.
Qed.

(** ** clamp and clamp01 *)

(** X1: A value that is not NaN is clamped into the interval, when the bounds
    are in order; NaN is returned unchanged. *)
Theorem clamp_range :
  forall value lo hi : number,
    (hi >= lo)%js = true ->
    (not_nan value = true ->
       (clamp value lo hi >= lo)%js = true /\
       (hi >= clamp value lo hi)%js = true) /\
    (not_nan value = false -> clamp value lo hi = NaN).
Proof.
  intros value lo hi Hord. destruct (ge_not_nan _ _ Hord) as [Hhi Hlo].
  split.
  - intros Hv. unfold clamp.
    destruct (value < lo)%js eqn:H1.
    + split; [apply ge_refl; assumption | exact Hord].
    + destruct (value > hi)%js eqn:H2.
      * split; [exact Hord | apply ge_refl; assumption].
      * split; [apply ge_of_not_lt; assumption|].
        apply ge_of_not_lt; assumption.
  - intros Hv. destruct value; try discriminate. destruct lo, hi; reflexivity.
Qed.

Lemma clamp_range_witness :
  (clamp (of_int 15) (of_int 0) (of_int 10) >= of_int 0)%js = true /\
  (of_int 10 >= clamp (of_int 15) (of_int 0) (of_int 10))%js = true.
Proof.
  destruct (clamp_range (of_int 15) (of_int 0) (of_int 10) eq_refl) as [H _].
  exact (H eq_refl).
Defined.

(** X2: Clamping twice is clamping once. *)
Theorem clamp_idempotent :
  forall value lo hi : number,
    (hi >= lo)%js = true ->
    clamp (clamp value lo hi) lo hi = clamp value lo hi.
Proof.
  intros value lo hi Hord. destruct (ge_not_nan _ _ Hord) as [Hhi Hlo].
  unfold clamp at 2 3.
  destruct (value < lo)%js eqn:H1.
  - unfold clamp. rewrite lt_irrefl.
    assert (Hgt : (lo > hi)%js = false).
    { unfold gt, lt, SFltb. unfold ge, SFleb in Hord.
      rewrite (SFcompare_antisym lo hi).
      destruct (SFcompare lo hi) as [[| |]|]; (reflexivity || discriminate). }
    now rewrite Hgt.
  - destruct (value > hi)%js eqn:H2.
    + unfold clamp.
      assert (Hlt : (hi < lo)%js = false).
      { unfold lt, SFltb. unfold ge, SFleb in Hord.
        rewrite (SFcompare_antisym lo hi).
        destruct (SFcompare lo hi) as [[| |]|]; (reflexivity || discriminate). }
      rewrite Hlt. unfold gt. now rewrite lt_irrefl.
    + unfold clamp. now rewrite H1, H2.
Qed.

Lemma clamp_idempotent_witness :
  clamp (clamp (of_int (-5)) (of_int 0) (of_int 10)) (of_int 0) (of_int 10) =
  clamp (of_int (-5)) (of_int 0) (of_int 10).
Proof. exact (clamp_idempotent (of_int (-5)) (of_int 0) (of_int 10) eq_refl). Defined.

(** X3: [clamp01] is [clamp] between 0 and 1: a value that is not NaN lands
    in [0, 1], and for NaN the result is NaN. *)
Theorem clamp01_range :
  forall value : number,
    clamp01 value = clamp value (of_int 0) (of_int 1) /\
    (if not_nan value
     then (clamp01 value >= of_int 0)%js && (of_int 1 >= clamp01 value)%js = true
     else clamp01 value = NaN).
Proof.
  intros value. split; [reflexivity|].
  destruct (not_nan value) eqn:Hv; [|destruct value; (reflexivity || discriminate)].
  unfold clamp01. destruct (value < of_int 0)%js eqn:H1; [reflexivity|].
  destruct (value > of_int 1)%js eqn:H2; [reflexivity|].
  rewrite (ge_of_not_lt value (of_int 0) Hv eq_refl H1).
  now rewrite (ge_of_not_lt (of_int 1) value eq_refl Hv H2).
Qed.

(** ** sign *)

(** X4: [sign] is 1 on both zeros, on positive numbers and on [+Infinity], and
    -1 on everything else, NaN included; it is never 0 and never NaN. *)
Theorem sign_values :
  forall f : number,
    sign f =
      (if match f with
          | S754_nan => false
          | S754_zero _ => true
          | S754_infinity s | S754_finite s _ _ => negb s
          end
       then of_int 1 else of_int (-1)) /\
    (sign f === of_int 0)%js = false /\ not_nan (sign f) = true.
Proof.
  intros f.
  assert (H : sign f =
      (if match f with
          | S754_nan => false
          | S754_zero _ => true
          | S754_infinity s | S754_finite s _ _ => negb s
          end
       then of_int 1 else of_int (-1))).
  { destruct f as [s | s | | s m e]; try (destruct s); reflexivity. }
  split; [exact H|]. rewrite H.
  destruct f as [s | s | | s m e]; try (destruct s); split; reflexivity.
Qed.

(** ** Sums that are not NaN *)

Lemma iter_shr_1_zero n :
  iter_pos shr_1 n (Build_shr_record 0 false false) = Build_shr_record 0 false false.
Proof.
  induction n as [n IH | n IH |]; simpl iter_pos.
  - change (shr_1 (Build_shr_record 0 false false))
      with (Build_shr_record 0 false false). now rewrite !IH.
  - now rewrite !IH.
  - reflexivity.
Qed.

(** Shifting a non-negative mantissa leaves it non-negative. *)
Lemma shr_fexp_nonneg m e :
  0 <= m -> 0 <= shr_m (fst (shr_fexp prec emax m e loc_Exact)).
Proof.
  intros Hm. unfold shr_fexp, shr.
  destruct (fexp prec emax (Zdigits2 m + e) - e) as [|n|n]; cbn [fst shr_record_of_loc shr_m];
    try assumption.
  destruct m as [|S|S]; try lia.
  - rewrite iter_shr_1_zero. cbn [shr_m]. lia.
  - pose proof (shifted_iter S n 0 _ (shifted_start S)) as (_ & Hq & _).
    unfold shr_record_of_loc in Hq. rewrite Hq.
    apply Z.div_pos; [lia | apply Z.pow_pos_nonneg; lia].
Qed.

Lemma round_nearest_even_nonneg mrs :
  0 <= shr_m mrs -> 0 <= round_nearest_even (shr_m mrs) (loc_of_shr_record mrs).
Proof.
  destruct mrs as [m r s]. cbn [shr_m]. intros Hm.
  destruct r, s; cbn [loc_of_shr_record round_nearest_even];
    try (destruct (Z.even m)); lia.
Qed.

(** Rounding a natural number never gives NaN. *)
Lemma binary_round_aux_not_nan s m e :
  0 <= m -> not_nan (binary_round_aux prec emax s m e loc_Exact) = true.
Proof.
  intros Hm. unfold binary_round_aux.
  pose proof (shr_fexp_nonneg m e Hm) as H1.
  destruct (shr_fexp prec emax m e loc_Exact) as [mrs' e']. cbn [fst] in H1.
  pose proof (round_nearest_even_nonneg mrs' H1) as H2.
  pose proof (shr_fexp_nonneg _ e' H2) as H3.
  destruct (shr_fexp prec emax _ e' loc_Exact) as [mrs'' e'']. cbn [fst] in H3.
  destruct (shr_m mrs'') as [|p|p]; try lia; [reflexivity|].
  destruct (e'' <=? emax - prec); reflexivity.
Qed.

Lemma binary_normalize_not_nan z e :
  not_nan (binary_normalize prec emax z e false) = true.
Proof.
  destruct z as [|p|p]; [reflexivity | |];
    unfold binary_normalize, binary_round;
    destruct (shl_align p e _) as [mz ez];
    apply binary_round_aux_not_nan; lia.
Qed.

(** The sum and the difference of two finite numbers are not NaN. *)
Lemma add_not_nan x y :
  is_finite x = true -> is_finite y = true -> not_nan (x + y)%js = true.
Proof.
  destruct x as [sx | sx | | sx mx ex], y as [sy | sy | | sy my ey];
    try discriminate; intros _ _.
  - destruct sx, sy; reflexivity.
  - reflexivity.
  - reflexivity.
  - apply binary_normalize_not_nan.
Qed.

Lemma sub_not_nan x y :
  is_finite x = true -> is_finite y = true -> not_nan (x - y)%js = true.
Proof.
  destruct x as [sx | sx | | sx mx ex], y as [sy | sy | | sy my ey];
    try discriminate; intros _ _.
  - destruct sx, sy; reflexivity.
  - reflexivity.
  - reflexivity.
  - apply binary_normalize_not_nan.
Qed.

(** ** moveTowards, continued *)

(** X8: With a positive finite step, the result never passes the target:
    from below it stays at most the target, from above at least. *)
Theorem moveTowards_no_overshoot :
  forall current target maxDelta : number,
    is_finite current = true -> is_finite maxDelta = true ->
    (maxDelta > of_int 0)%js = true ->
    ((current < target)%js = true ->
       (target >= moveTowards current target maxDelta)%js = true) /\
    ((target < current)%js = true ->
       (moveTowards current target maxDelta >= target)%js = true).
Proof.
  intros current target maxDelta Hc Hd Hpos. unfold moveTowards. rewrite Hpos.
  cbn [andb]. split; intros Hlt; destruct (lt_not_nan _ _ Hlt) as [Hn1 Hn2].
  - assert (Hgt : (target < current)%js = false).
    { unfold lt, SFltb in *. rewrite (SFcompare_antisym current target).
      destruct (SFcompare current target) as [[| |]|]; (reflexivity || discriminate). }
    pose proof (add_not_nan current maxDelta Hc Hd) as Hsum.
    unfold gt, lt in *. rewrite Hlt, Hgt. cbn [andb orb].
    destruct (SFltb target (current + maxDelta)%js) eqn:Hs.
    + apply ge_refl. assumption.
    + apply ge_of_not_lt; assumption.
  - assert (Hgt : (current < target)%js = false).
    { unfold lt, SFltb in *. rewrite (SFcompare_antisym target current).
      destruct (SFcompare target current) as [[| |]|]; (reflexivity || discriminate). }
    pose proof (sub_not_nan current maxDelta Hc Hd) as Hdiff.
    unfold gt, lt in *. rewrite Hlt, Hgt. cbn [andb orb].
    destruct (SFltb (current - maxDelta)%js target) eqn:Hs.
    + apply ge_refl. assumption.
    + apply ge_of_not_lt; assumption.
Qed.

Lemma moveTowards_no_overshoot_witness :
  (of_int 10 >= moveTowards (of_int 8) (of_int 10) (of_int 3))%js = true /\
  (moveTowards (of_int 10) (of_int 8) (of_int 3) >= of_int 8)%js = true.
Proof.
  split.
  - exact (proj1 (moveTowards_no_overshoot (of_int 8) (of_int 10) (of_int 3)
                    eq_refl eq_refl eq_refl) eq_refl).
  - exact (proj2 (moveTowards_no_overshoot (of_int 10) (of_int 8) (of_int 3)
                    eq_refl eq_refl eq_refl) eq_refl).
Defined.

(** X9: A step of zero leaves [current] where it is, whatever the target. *)
Theorem moveTowards_zero_step :
  forall (current target : number) (s : bool),
    not_nan current = true ->
    (moveTowards current target (S754_zero s) === current)%js = true.
Proof.
  intros current target s Hc. unfold moveTowards.
  assert (H0 : (S754_zero s > of_int 0)%js = false) by (destruct s; reflexivity).
  rewrite H0. cbn [andb].
  assert (Hsub : ((current - S754_zero s) === current)%js = true).
  { destruct current as [sc | sc | | sc mc ec]; try discriminate.
    - destruct sc, s; reflexivity.
    - destruct sc; reflexivity.
    - change ((S754_finite sc mc ec === S754_finite sc mc ec)%js = true).
      unfold eq, SFeqb. destruct (SFcompare_refl (S754_finite sc mc ec)) as [-> | H];
        [reflexivity | discriminate]. }
  assert (Hadd : ((current + S754_zero s) === current)%js = true).
  { destruct current as [sc | sc | | sc mc ec]; try discriminate.
    - destruct sc, s; reflexivity.
    - destruct sc; reflexivity.
    - change ((S754_finite sc mc ec === S754_finite sc mc ec)%js = true).
      unfold eq, SFeqb. destruct (SFcompare_refl (S754_finite sc mc ec)) as [-> | H];
        [reflexivity | discriminate]. }
  destruct (current > target)%js; assumption.
Qed.

Lemma moveTowards_zero_step_witness :
  (moveTowards (of_int 5) (of_int 9) (of_int 0) === of_int 5)%js = true.
Proof. exact (moveTowards_zero_step (of_int 5) (of_int 9) false eq_refl). Defined.

(** ** lerp *)



(** ** approximately *)

Lemma binary_round_abs s S e :
  SFabs (binary_round prec emax s S e) = SFabs (binary_round prec emax false S e).
Proof.
  unfold binary_round. destruct (shl_align S e _) as [mz ez].
  unfold binary_round_aux.
  destruct (shr_fexp prec emax (Zpos mz) ez loc_Exact) as [mrs' e'].
  destruct (shr_fexp prec emax _ e' loc_Exact) as [mrs'' e''].
  destruct (shr_m mrs'') as [|p|p]; try reflexivity.
  destruct (e'' <=? emax - prec); reflexivity.
Qed.

Lemma binary_normalize_abs_opp z e :
  SFabs (binary_normalize prec emax (- z) e false) =
  SFabs (binary_normalize prec emax z e false).
Proof.
  destruct z as [|p|p]; [reflexivity | |]; cbn [Z.opp binary_normalize];
    rewrite (binary_round_abs true); reflexivity.
Qed.

(** The distance does not depend on the order of the operands. *)
Lemma abs_sub_comm a b : Math_abs (a - b)%js = Math_abs (b - a)%js.
Proof.
  destruct a as [sa | sa | | sa ma ea], b as [sb | sb | | sb mb eb];
    try reflexivity; try (destruct sa, sb; reflexivity).
  unfold Math_abs, sub, SFsub. rewrite (Z.min_comm eb ea).
  rewrite <- binary_normalize_abs_opp. f_equal. f_equal. ring.
Qed.

(** X5: [approximately] is symmetric, and a number is approximately itself
    exactly when it is finite. *)
Theorem approximately_sym_refl :
  forall f1 f2 : number,
    approximately f1 f2 = approximately f2 f1 /\
    approximately f1 f1 = is_finite f1.
Proof.
  intros f1 f2. split.
  - unfold approximately. now rewrite abs_sub_comm.
  - unfold approximately. destruct f1 as [s | s | | s m e].
    + destruct s; reflexivity.
    + destruct s; reflexivity.
    + reflexivity.
    + unfold sub, SFsub. rewrite Z.sub_diag. reflexivity.
Qed.

(** ** pingPong *)

(** [length - r] for a double [r] below [length] is the sum of [length]
    and [-r]. *)
Lemma sub_negative_smaller md ed m e :
  canon md ed -> canon m e -> e <= ed -> Zpos m < Zpos md * 2 ^ (ed - e) ->
  exists m' e',
    (S754_finite false md ed - S754_finite false m e)%js = S754_finite false m' e' /\
    (S754_finite false md ed >= S754_finite false m' e')%js = true.
Proof.
  intros Hcd Hc He Hlt.
  exact (add_negative_smaller md ed m e Hcd Hc He Hlt).
Qed.

(** The value reflected by [pingPong]: [t], made non-negative. *)
Lemma pingPong_reflect t :
  is_finite t = true ->
  (exists s, (if (t < of_int 0)%js then neg t else t) = S754_zero s) \/
  (exists m e, (if (t < of_int 0)%js then neg t else t) = S754_finite false m e /\
               exists s, t = S754_finite s m e).
Proof.
  destruct t as [s | s | | s m e]; try discriminate; intros _.
  - left. exists s. destruct s; reflexivity.
  - right. exists m, e. split; [destruct s; reflexivity | eauto].
Qed.

(** X11: For a positive [length] and a finite [t], [pingPong(t, length)] is
    never smaller than 0 and never larger than [length]. *)
Theorem pingPong_range :
  forall t length : number,
    is_double t = true -> is_double length = true ->
    is_finite t = true -> (length > of_int 0)%js = true ->
    (pingPong t length >= of_int 0)%js = true /\
    (length >= pingPong t length)%js = true.
Proof.
  intros t length Hdt Hdl Hft Hpos. unfold pingPong. cbv zeta.
  (* the four possible results, each within the bounds *)
  assert (Hzero : (of_int 0 >= of_int 0)%js = true /\ (length >= of_int 0)%js = true).
  { split; [reflexivity | apply ge_of_lt; exact Hpos]. }
  assert (Hlen : (length >= of_int 0)%js = true /\ (length >= length)%js = true).
  { split; [apply ge_of_lt; exact Hpos|].
    apply ge_refl. now destruct (lt_not_nan _ _ Hpos). }
  destruct (pingPong_reflect t Hft) as [[s ->] | (m & e & -> & st & ->)].
  - (* t is a zero: the remainder is a zero *)
    assert (Hmod : (S754_zero s mod length)%js = S754_zero s).
    { destruct length as [sl | sl | | sl ml el]; try discriminate;
        destruct sl; try discriminate; reflexivity. }
    rewrite Hmod.
    assert (Heq : (S754_zero s === of_int 0)%js = true) by (destruct s; reflexivity).
    rewrite Heq.
    destruct (Math_ceil (S754_zero s / length) mod of_int 2 === of_int 0)%js;
      assumption.
  - pose proof (is_double_canon _ _ _ Hdt) as Hct.
    destruct length as [sl | sl | | sl ml el]; try discriminate;
      destruct sl; try discriminate.
    + (* an infinite length: the remainder is t itself *)
      change ((S754_finite false m e mod S754_infinity false)%js)
        with (S754_finite false m e).
      change ((S754_finite false m e === of_int 0)%js) with false.
      destruct (Math_ceil (S754_finite false m e / S754_infinity false)
                  mod of_int 2 === of_int 0)%js; split; reflexivity.
    + pose proof (is_double_canon _ _ _ Hdl) as Hcl.
      destruct (rem_finite false m e false ml el Hct Hcl)
        as [-> | (mr & er & -> & Hc & He & Hlt)].
      * change ((S754_zero false === of_int 0)%js) with true.
        destruct (Math_ceil (S754_finite false m e / S754_finite false ml el)
                    mod of_int 2 === of_int 0)%js; assumption.
      * change ((S754_finite false mr er === of_int 0)%js) with false.
        destruct (Math_ceil (S754_finite false m e / S754_finite false ml el)
                    mod of_int 2 === of_int 0)%js.
        -- destruct (sub_negative_smaller ml el mr er Hcl Hc He Hlt)
             as (m' & e' & -> & Hge).
           split; [reflexivity | exact Hge].
        -- split; [reflexivity|].
           apply (canon_le mr ml er el er Hc Hcl); try lia.
           rewrite Z.sub_diag, Z.mul_1_r. lia.
Qed.

Lemma pingPong_range_witness :
  (pingPong (of_int 7) (of_int 5) >= of_int 0)%js = true /\
  (of_int 5 >= pingPong (of_int 7) (of_int 5))%js = true.
Proof.
  exact (pingPong_range (of_int 7) (of_int 5) eq_refl eq_refl eq_refl eq_refl).
Defined.

(** X12: [pingPong] does not depend on the sign of [t]. *)
Theorem pingPong_even :
  forall t length : number, pingPong (neg t) length = pingPong t length.
Proof.
  intros t length. destruct t as [s | s | | s m e].
  - unfold pingPong. cbv zeta.
    assert (Hn : neg (S754_zero s) = S754_zero (negb s)) by reflexivity.
    rewrite Hn.
    assert (Hlt : forall s', (S754_zero s' < of_int 0)%js = false)
      by (intros []; reflexivity).
    rewrite !Hlt.
    destruct length as [sl | sl | | sl ml el]; destruct s;
      try reflexivity; destruct sl; reflexivity.
  - destruct s; reflexivity.
  - reflexivity.
  - destruct s; reflexivity.
Qed.

(** ** deltaAngle *)

(** [deltaAngle(370, 10) == 0]; the difference is not brought back into
    a half turn: [deltaAngle(0, 350) == 350]. *)
Example deltaAngle_values :
  deltaAngle (of_int 370) (of_int 10) = of_int 0 /\
  deltaAngle (of_int 0) (of_int 350) = of_int 350.
Proof. split; vm_compute; reflexivity. Qed.

Lemma canon_360 : canon 6333186975989760 (-44).
Proof.
  split; [reflexivity|]. split; [lia|]. left.
  apply Z.leb_le. vm_compute. reflexivity.
Qed.

Lemma canon_720 : canon 6333186975989760 (-43).
Proof.
  split; [reflexivity|]. split; [lia|]. left.
  apply Z.leb_le. vm_compute. reflexivity.
Qed.

(** An angle after the reduction of [deltaAngle] is a zero or a double of
    magnitude at most 360. *)
Lemma angle_reduced x :
  is_double x = true -> is_finite x = true ->
  let r := if (Math_abs x > FULL_ANGLE)%js then (x mod FULL_ANGLE)%js else x in
  (exists s, r = S754_zero s) \/
  (exists s m e, r = S754_finite s m e /\ canon m e /\
                 (FULL_ANGLE >= S754_finite false m e)%js = true).
Proof.
  intros Hd Hf. cbv zeta.
  destruct x as [s | s | | s m e]; try discriminate.
  - left. exists s. destruct s; reflexivity.
  - pose proof (is_double_canon _ _ _ Hd) as Hc.
    change FULL_ANGLE with (S754_finite false 6333186975989760 (-44)).
    destruct (Math_abs (S754_finite s m e) > S754_finite false 6333186975989760 (-44))%js
      eqn:Hbig.
    + destruct (rem_finite s m e false 6333186975989760 (-44) Hc canon_360)
        as [-> | (mr & er & -> & Hcr & He & Hlt)]; [left; eauto | right].
      exists s, mr, er. split; [reflexivity|]. split; [exact Hcr|].
      apply (canon_le mr 6333186975989760 er (-44) er Hcr canon_360); try lia.
      rewrite Z.sub_diag, Z.mul_1_r. lia.
    + right. exists s, m, e. split; [reflexivity|]. split; [exact Hc|].
      apply ge_of_not_lt; [reflexivity | reflexivity | exact Hbig].
Qed.

(** The scaled mantissa of a double of magnitude at most 360. *)
Lemma scaled_le_360 m e ez :
  canon m e -> (FULL_ANGLE >= S754_finite false m e)%js = true ->
  ez <= e -> e <= -44 /\ Zpos m * 2 ^ (e - ez) <= 6333186975989760 * 2 ^ (-44 - ez).
Proof.
  intros (Hm & He & _) Hle Hez.
  change FULL_ANGLE with (S754_finite false 6333186975989760 (-44)) in Hle.
  apply le_finite_pos in Hle.
  assert (Hle' : e < -44 \/ (e = -44 /\ Zpos m <= 6333186975989760)).
  { destruct Hle as [Hlt | [Heq Hmle]]; [left; exact Hlt | right].
    split; [exact Heq | exact (Pos2Z.pos_le_pos _ _ Hmle)]. }
  clear Hle.
  assert (Hp : 0 < 2 ^ (e - ez)) by (apply Z.pow_pos_nonneg; lia).
  destruct Hle' as [Hlt | [-> Hmle]].
  - split; [lia|].
    apply Z.le_trans with (2 ^ 53 * 2 ^ (e - ez)); [nia|].
    replace (-44 - ez) with (1 + (-45 - e) + (e - ez)) by lia.
    rewrite !Z.pow_add_r by lia.
    assert (Hq : 1 <= 2 ^ (-45 - e)) by (apply Z.lt_pred_le, Z.pow_pos_nonneg; lia).
    change (2 ^ 53) with 9007199254740992. change (2 ^ 1) with 2. nia.
  - split; [lia|]. apply Z.mul_le_mono_nonneg_r; lia.
Qed.

(** The difference of two reduced angles has magnitude at most 720. *)
Lemma sub_reduced_bound sx mx ex sy my ey :
  canon mx ex -> (FULL_ANGLE >= S754_finite false mx ex)%js = true ->
  canon my ey -> (FULL_ANGLE >= S754_finite false my ey)%js = true ->
  (of_int 720 >= Math_abs (S754_finite sy my ey - S754_finite sx mx ex))%js = true.
Proof.
  intros Hcx Hlx Hcy Hly. unfold sub, SFsub.
  set (ez := Z.min ey ex).
  destruct (scaled_le_360 mx ex ez Hcx Hlx ltac:(unfold ez; lia)) as [Hex Hvx].
  destruct (scaled_le_360 my ey ez Hcy Hly ltac:(unfold ez; lia)) as [Hey Hvy].
  rewrite (shl_align_value my ey ez), (shl_align_value mx ex ez) by (unfold ez; lia).
  set (Z0 := cond_Zopp sy (Zpos my * 2 ^ (ey - ez)) - cond_Zopp sx (Zpos mx * 2 ^ (ex - ez))).
  assert (Hpy : 0 < Zpos my * 2 ^ (ey - ez))
    by (apply Z.mul_pos_pos; [lia | apply Z.pow_pos_nonneg; unfold ez; lia]).
  assert (Hpx : 0 < Zpos mx * 2 ^ (ex - ez))
    by (apply Z.mul_pos_pos; [lia | apply Z.pow_pos_nonneg; unfold ez; lia]).
  assert (H720 : 6333186975989760 * 2 ^ (-43 - ez) = 2 * (6333186975989760 * 2 ^ (-44 - ez))).
  { replace (-43 - ez) with (1 + (-44 - ez)) by lia.
    rewrite Z.pow_add_r by (unfold ez; lia). change (2 ^ 1) with 2. ring. }
  assert (Habs : Z.abs Z0 <= 6333186975989760 * 2 ^ (-43 - ez)).
  { rewrite H720. unfold Z0, cond_Zopp. destruct sy, sx; lia. }
  assert (Hez : -1074 <= ez).
  { destruct Hcx as (_ & ? & _), Hcy as (_ & ? & _). unfold ez. lia. }
  assert (Hup : forall S, Zpos S <= 6333186975989760 * 2 ^ (-43 - ez) ->
            (of_int 720 >= SFabs (binary_round prec emax false S ez))%js = true).
  { intros S HS.
    destruct (binary_round_upper S ez 6333186975989760 (-43) Hez canon_720
                ltac:(unfold ez; lia) HS) as (m & e & -> & _ & Hge).
    exact Hge. }
  unfold Math_abs. destruct Z0 as [|S|S] eqn:HZ.
  - reflexivity.
  - cbn [binary_normalize]. apply Hup. lia.
  - cbn [binary_normalize]. rewrite binary_round_abs. apply Hup. lia.
Qed.

(** X13: For finite angles, [deltaAngle] has magnitude at most 720: each angle
    is first reduced to magnitude at most 360. *)
Theorem deltaAngle_bound :
  forall current target : number,
    is_double current = true -> is_double target = true ->
    is_finite current = true -> is_finite target = true ->
    (of_int 720 >= Math_abs (deltaAngle current target))%js = true.
Proof.
  intros current target Hdc Hdt Hfc Hft. unfold deltaAngle. cbv zeta.
  pose proof (angle_reduced current Hdc Hfc) as Hc.
  pose proof (angle_reduced target Hdt Hft) as Ht. cbv zeta in Hc, Ht.
  assert (Hsmall : forall m e, (FULL_ANGLE >= S754_finite false m e)%js = true ->
                     (of_int 720 >= S754_finite false m e)%js = true).
  { intros m e H.
    change FULL_ANGLE with (S754_finite false 6333186975989760 (-44)) in H.
    apply le_finite_pos in H.
    change (of_int 720) with (S754_finite false 6333186975989760 (-43)).
    apply le_finite_pos. left. destruct H as [H | [H _]]; lia. }
  destruct Hc as [[sc ->] | (sc & mc & ec & -> & Hcc & Hlc)],
           Ht as [[st ->] | (st & mt & et & -> & Hct & Hlt)].
  - destruct sc, st; reflexivity.
  - destruct sc; apply Hsmall; exact Hlt.
  - destruct st; apply Hsmall; exact Hlc.
  - now apply sub_reduced_bound.
Qed.

Lemma deltaAngle_bound_witness :
  (of_int 720 >= Math_abs (deltaAngle (of_int (-350)) (of_int 1070)))%js = true.
Proof.
  exact (deltaAngle_bound (of_int (-350)) (of_int 1070)
           eq_refl eq_refl eq_refl eq_refl).
Defined.

(** ** Powers of two, continued *)

(** The bit test of [isPowerOfTwo] on positive integers. *)
Lemma land_pred_pow2 v : 0 < v -> (Z.land v (v - 1) = 0 <-> is_power_of_two v).
Proof.
  intros Hv. split.
  - intros Hland. exists (Z.log2 v). split; [apply Z.log2_nonneg|].
    destruct (Z.log2_spec v Hv) as [Hlo Hhi].
    destruct (Z.eq_dec v (2 ^ Z.log2 v)) as [|Hne]; [assumption | exfalso].
    assert (Hlog : Z.log2 (v - 1) = Z.log2 v)
      by (apply Z.log2_unique; [apply Z.log2_nonneg | lia]).
    assert (Hbit : Z.testbit (Z.land v (v - 1)) (Z.log2 v) = true).
    { rewrite Z.land_spec, (Z.bit_log2 v Hv).
      rewrite <- Hlog. rewrite Z.bit_log2; [reflexivity|].
      assert (0 < 2 ^ Z.log2 v) by (apply Z.pow_pos_nonneg; [lia | apply Z.log2_nonneg]).
      lia. }
    rewrite Hland, Z.bits_0 in Hbit. discriminate.
  - intros (k & Hk & ->).
    replace (2 ^ k - 1) with (Z.ones k) by (rewrite Z.ones_equiv; lia).
    rewrite Z.land_ones by assumption. apply Z.mod_same.
    apply Z.pow_nonzero; lia.
Qed.

Lemma land_pred_range v : 0 < v < 2 ^ 31 -> 0 <= Z.land v (v - 1) < 2 ^ 31.
Proof.
  intros Hv.
  assert (H0 : 0 <= Z.land v (v - 1)) by (apply Z.land_nonneg; lia).
  split; [exact H0|].
  destruct (Z.eq_dec (Z.land v (v - 1)) 0) as [-> | Hnz]; [reflexivity|].
  apply Z.log2_lt_pow2; [lia|].
  pose proof (Z.log2_land v (v - 1) ltac:(lia) ltac:(lia)) as Hl.
  assert (Z.log2 v < 31) by (apply Z.log2_lt_pow2; lia). lia.
Qed.

Lemma eq_of_int_zero z :
  - 2 ^ 53 < z < 2 ^ 53 -> (of_int z === of_int 0)%js = (z =? 0).
Proof.
  intros Hz. destruct z as [|p|p].
  - reflexivity.
  - destruct (of_int_finite false p ltac:(lia)) as (m & e & Hf & _).
    cbn [cond_Zopp] in Hf. rewrite Hf. reflexivity.
  - destruct (of_int_finite true p ltac:(lia)) as (m & e & Hf & _).
    change (cond_Zopp true (Zpos p)) with (Zneg p) in Hf. rewrite Hf. reflexivity.
Qed.

(** On a number holding a positive 32-bit integer, [isPowerOfTwo] is the
    bit test on that integer. *)
Lemma isPowerOfTwo_reading v :
  0 < v < 2 ^ 31 -> isPowerOfTwo (of_int v) = (Z.land v (v - 1) =? 0).
Proof.
  intros Hv. unfold isPowerOfTwo. cbv zeta.
  assert (Hint : int32 v) by (unfold int32; lia).
  rewrite toInt_of_ToInt32, (ToInt32_of_int v Hint).
  rewrite (sub_of_int v 1) by (pose proof (int32_small v Hint); lia).
  unfold band. rewrite !ToInt32_of_int by (unfold int32; lia).
  pose proof (land_pred_range v Hv) as Hr.
  apply eq_of_int_zero. apply int32_small. unfold int32. lia.
Qed.

(** X18: On the positive 32-bit integers, [isPowerOfTwo] holds exactly for the
    powers of two. *)
Theorem isPowerOfTwo_int :
  forall v : Z,
    0 < v < 2 ^ 31 ->
    (isPowerOfTwo (of_int v) = true <-> is_power_of_two v).
Proof.
  intros v Hv. rewrite (isPowerOfTwo_reading v Hv), Z.eqb_eq.
  apply land_pred_pow2. lia.
Qed.

Lemma isPowerOfTwo_int_witness :
  isPowerOfTwo (of_int 16) = true <-> is_power_of_two 16.
Proof. apply (isPowerOfTwo_int 16). split; reflexivity. Defined.

(** X19: Whatever the argument, the result of [nextPowerOfTwo] passes
    [isPowerOfTwo]. *)
Theorem isPowerOfTwo_nextPowerOfTwo :
  forall value : number, isPowerOfTwo (nextPowerOfTwo value) = true.
Proof.
  intros value. rewrite nextPowerOfTwo_reading.
  pose proof (ToInt32_range value) as Hr. set (v := ToInt32 value) in *.
  destruct (Z_lt_le_dec 0 v) as [Hpos | Hle].
  - rewrite nextPowerOfTwo_int_pos by (unfold int32 in Hr; lia).
    assert (Hlog : 0 <= Z.log2_up v <= 31).
    { split; [apply Z.log2_up_nonneg|].
      apply Z.log2_up_le_pow2; [assumption | unfold int32 in Hr; lia]. }
    destruct (Z.eq_dec (Z.log2_up v) 31) as [-> | Hne]; [vm_compute; reflexivity|].
    assert (Hp : 0 < 2 ^ Z.log2_up v < 2 ^ 31).
    { split; [apply Z.pow_pos_nonneg; lia | apply Z.pow_lt_mono_r; lia]. }
    rewrite (isPowerOfTwo_reading _ Hp). apply Z.eqb_eq.
    apply land_pred_pow2; [lia|].
    exists (Z.log2_up v). split; [lia | reflexivity].
  - rewrite nextPowerOfTwo_int_nonpos by assumption. vm_compute. reflexivity.
Qed.

(** X17: [nextPowerOfTwo] leaves its own results unchanged, as long as the
    32-bit integer of the argument is at most [2^30]; beyond, the first
    result is [2^31], which the second call reads as negative. *)
Theorem nextPowerOfTwo_idempotent :
  forall value : number,
    ToInt32 value <= 2 ^ 30 ->
    nextPowerOfTwo (nextPowerOfTwo value) = nextPowerOfTwo value /\
    nextPowerOfTwo (nextPowerOfTwo (of_int (2 ^ 31 - 1))) = of_int 0.
Proof.
  intros value Hv. split; [|vm_compute; reflexivity].
  rewrite (nextPowerOfTwo_reading value).
  pose proof (ToInt32_range value) as Hr. set (v := ToInt32 value) in *.
  destruct (Z_lt_le_dec 0 v) as [Hpos | Hle].
  - rewrite nextPowerOfTwo_int_pos by (unfold int32 in Hr; lia).
    assert (Hlog : 0 <= Z.log2_up v <= 30).
    { split; [apply Z.log2_up_nonneg | apply Z.log2_up_le_pow2; assumption]. }
    assert (Hp : 0 < 2 ^ Z.log2_up v < 2 ^ 31).
    { split; [apply Z.pow_pos_nonneg; lia | apply Z.pow_lt_mono_r; lia]. }
    rewrite nextPowerOfTwo_reading, ToInt32_of_int by (unfold int32; lia).
    rewrite nextPowerOfTwo_int_pos by assumption.
    now rewrite Z.log2_up_pow2 by lia.
  - rewrite nextPowerOfTwo_int_nonpos by assumption. vm_compute. reflexivity.
Qed.

Lemma nextPowerOfTwo_idempotent_witness :
  nextPowerOfTwo (nextPowerOfTwo (of_int 5)) = nextPowerOfTwo (of_int 5).
Proof.
  refine (proj1 (nextPowerOfTwo_idempotent (of_int 5) _)).
  vm_compute. discriminate.
Defined.

(** [<] on numbers holding natural numbers below [2^53]. *)
Lemma lt_of_int_true a b :
  0 <= a -> a < b -> b < 2 ^ 53 -> (of_int a < of_int b)%js = true.
Proof.
  intros Ha Hab Hb. destruct b as [|pb|pb]; try lia.
  destruct (of_int_finite false pb ltac:(lia)) as (mb & eb & Hfb & Hcb & Heb & Hvb).
  cbn [cond_Zopp] in Hfb. rewrite Hfb. destruct a as [|pa|pa]; try lia.
  - reflexivity.
  - destruct (of_int_finite false pa ltac:(lia)) as (ma & ea & Hfa & Hca & Hea & Hva).
    cbn [cond_Zopp] in Hfa. rewrite Hfa.
    set (c := Z.min ea eb).
    apply (canon_lt ma mb ea eb c Hca Hcb); try (unfold c; lia).
    rewrite Hva, Hvb. rewrite <- !Z.mul_assoc, <- !Z.pow_add_r by (unfold c; lia).
    replace (- ea + (ea - c)) with (- c) by lia.
    replace (- eb + (eb - c)) with (- c) by lia.
    apply Z.mul_lt_mono_pos_r; [apply Z.pow_pos_nonneg; unfold c; lia | lia].
Qed.

Lemma lt_of_int a b :
  0 <= a < 2 ^ 53 -> 0 <= b < 2 ^ 53 -> (of_int a < of_int b)%js = (a <? b).
Proof.
  intros Ha Hb. destruct (Z.ltb_spec a b) as [Hlt | Hge].
  - apply lt_of_int_true; lia.
  - destruct (Z.eq_dec a b) as [-> | Hne]; [apply lt_irrefl|].
    pose proof (lt_of_int_true b a ltac:(lia) ltac:(lia) ltac:(lia)) as Hrev.
    unfold lt, SFltb in *. rewrite (SFcompare_antisym (of_int b) (of_int a)).
    destruct (SFcompare (of_int b) (of_int a)) as [[| |]|];
      (reflexivity || discriminate).
Qed.

(** X20: For an integer from 1 to [2^30], [closestPowerOfTwo] returns a power
    of two, and no power of two is nearer to the argument. *)
Theorem closestPowerOfTwo_nearest :
  forall v : Z,
    1 <= v <= 2 ^ 30 ->
    exists r,
      closestPowerOfTwo (of_int v) = of_int r /\
      is_power_of_two r /\
      forall p, is_power_of_two p -> Z.abs (r - v) <= Z.abs (p - v).
Proof.
  intros v Hv.
  assert (H30 : 2 ^ 30 < 2 ^ 31) by (apply Z.pow_lt_mono_r; lia).
  assert (H53 : 2 ^ 31 < 2 ^ 53) by (apply Z.pow_lt_mono_r; lia).
  assert (Hint : int32 v) by (unfold int32; lia).
  set (j := Z.log2_up v).
  assert (Hj : 0 <= j <= 30).
  { split; [apply Z.log2_up_nonneg | apply Z.log2_up_le_pow2; lia]. }
  assert (Hnext : nextPowerOfTwo (of_int v) = of_int (2 ^ j)).
  { rewrite nextPowerOfTwo_reading, (ToInt32_of_int v Hint).
    now rewrite nextPowerOfTwo_int_pos by lia. }
  assert (HN : 0 < 2 ^ j <= 2 ^ 30).
  { split; [apply Z.pow_pos_nonneg; lia | apply Z.pow_le_mono_r; lia]. }
  assert (HvN : v <= 2 ^ j).
  { destruct (Z.eq_dec v 1) as [-> | Hne]; [lia|].
    apply (Z.log2_up_spec v). lia. }
  assert (Hcl : closestPowerOfTwo (of_int v) =
                if Z.shiftr (2 ^ j) 2 <? 2 ^ j - v
                then of_int (Z.shiftr (2 ^ j) 1) else of_int (2 ^ j)).
  { unfold closestPowerOfTwo. cbv zeta. rewrite Hnext.
    rewrite (sub_of_int (2 ^ j) v) by lia.
    unfold sar, gt. rewrite !ToInt32_of_int by (unfold int32; lia).
    change (2 mod 32) with 2. change (1 mod 32) with 1.
    pose proof (shiftr_bound (2 ^ j) 2 ltac:(lia) ltac:(lia)) as Hs.
    rewrite lt_of_int by lia. reflexivity. }
  rewrite Hcl. rewrite !Z.shiftr_div_pow2 by lia.
  change (2 ^ 2) with 4. change (2 ^ 1) with 2.
  destruct (Z_lt_le_dec j 2) as [Hsmall | Hbig].
  - (* v is 1 or 2, and is itself the result *)
    assert (Hv12 : v = 2 ^ j).
    { destruct (Z.eq_dec j 0) as [Hj0 | Hj0].
      - rewrite Hj0 in *. change (2 ^ 0) with 1 in *. lia.
      - assert (Hj1 : j = 1) by lia. rewrite Hj1 in *.
        change (2 ^ 1) with 2 in *.
        assert (1 < v); [|lia].
        destruct (Z_lt_le_dec 1 v) as [|Hle]; [assumption | exfalso].
        assert (v = 1) by lia. subst v. discriminate Hj1. }
    exists (2 ^ j).
    assert (Hq : 0 <= 2 ^ j / 4) by (apply Z.div_pos; lia).
    destruct (Z.ltb_spec (2 ^ j / 4) (2 ^ j - v)) as [Hc | Hc]; [lia|].
    split; [reflexivity|]. split; [exists j; split; [lia | reflexivity]|].
    intros p _. lia.
  - (* the argument lies between two powers of two *)
    set (P := 2 ^ (j - 2)).
    assert (HP : 2 ^ j = 4 * P).
    { unfold P. replace j with (2 + (j - 2)) at 1 by lia.
      rewrite Z.pow_add_r by lia. reflexivity. }
    assert (HP1 : 2 ^ (j - 1) = 2 * P).
    { unfold P. replace (j - 1) with (1 + (j - 2)) by lia.
      rewrite Z.pow_add_r by lia. reflexivity. }
    assert (HP0 : 0 < P) by (unfold P; apply Z.pow_pos_nonneg; lia).
    assert (Hlow : 2 * P < v).
    { rewrite <- HP1. replace (j - 1) with (Z.pred j) by lia.
      apply (Z.log2_up_spec v).
      destruct (Z_lt_le_dec 1 v) as [|Hle]; [assumption | exfalso].
      assert (v = 1) by lia. subst v. unfold j in Hbig.
      change (Z.log2_up 1) with 0 in Hbig. lia. }
    assert (Hpow : forall p, is_power_of_two p -> p <= 2 * P \/ 4 * P <= p).
    { intros p (i & Hi & ->). destruct (Z_lt_le_dec i j) as [Hlt | Hge].
      - left. rewrite <- HP1. apply Z.pow_le_mono_r; lia.
      - right. rewrite <- HP. apply Z.pow_le_mono_r; lia. }
    rewrite HP in *.
    replace (4 * P / 4) with P by (apply Z.div_unique with 0; lia).
    replace (4 * P / 2) with (2 * P) by (apply Z.div_unique with 0; lia).
    destruct (Z.ltb_spec P (4 * P - v)) as [Hc | Hc].
    + exists (2 * P). split; [reflexivity|].
      split; [exists (j - 1); split; [lia | symmetry; exact HP1]|].
      intros p Hp. destruct (Hpow p Hp); lia.
    + exists (4 * P). split; [reflexivity|].
      split; [exists j; split; [lia | symmetry; exact HP]|].
      intros p Hp. destruct (Hpow p Hp); lia.
Qed.

Lemma closestPowerOfTwo_nearest_witness :
  exists r,
    closestPowerOfTwo (of_int 5) = of_int r /\
    is_power_of_two r /\
    forall p, is_power_of_two p -> Z.abs (r - 5) <= Z.abs (p - 5).
Proof. apply (closestPowerOfTwo_nearest 5). split; [lia | discriminate]. Defined.

(** ** inverseLerp, continued *)

(** A finite non-zero number divided by itself is 1. *)
Lemma div_self s m e :
  (S754_finite s m e / S754_finite s m e)%js = of_int 1.
Proof.
  unfold div, SFdiv, SFdiv_core_binary.
  replace (Zdigits2 (Zpos m) + e - (Zdigits2 (Zpos m) + e)) with 0 by lia.
  rewrite Z.sub_diag.
  change (Z.min (fexp prec emax 0) 0) with (-53).
  change (0 - -53) with 53. cbv zeta.
  assert (Hq : Z.shiftl (Zpos m) 53 / Zpos m = 2 ^ 53).
  { rewrite Z.shiftl_mul_pow2 by lia. rewrite Z.mul_comm. apply Z.div_mul. lia. }
  assert (Hr : Z.shiftl (Zpos m) 53 mod Zpos m = 0).
  { rewrite Z.shiftl_mul_pow2 by lia. rewrite Z.mul_comm. apply Z.mod_mul. lia. }
  unfold Z.div in Hq. unfold Z.modulo in Hr.
  destruct (Z.div_eucl (Z.shiftl (Zpos m) 53) (Zpos m)) as [q r].
  subst q r.
  assert (Hloc : new_location (Zpos m) 0 = loc_Exact).
  { unfold new_location. destruct (Z.even (Zpos m)); reflexivity. }
  rewrite Hloc. destruct s; vm_compute; reflexivity.
Qed.

(** X7: When [b - a] is a finite non-zero number, [inverseLerp] sends [a] to 0
    and [b] to 1. *)
Theorem inverseLerp_endpoints :
  forall a b : number,
    is_finite (b - a)%js = true -> ((b - a) === of_int 0)%js = false ->
    (inverseLerp a b a === of_int 0)%js = true /\
    inverseLerp a b b = of_int 1.
Proof.
  intros a b Hfin Hnz.
  assert (Hab : is_finite a = true /\ is_finite b = true).
  { destruct a as [sa | sa | | sa ma ea], b as [sb | sb | | sb mb eb];
      try (split; reflexivity); try discriminate;
      try (destruct sa, sb; discriminate). }
  destruct Hab as [Ha Hb].
  assert (Hne : (a === b)%js = false).
  { destruct (a === b)%js eqn:Heq; [|reflexivity].
    destruct (sub_equal a b Heq Ha) as [Hz | Hz]; rewrite Hz in Hnz; discriminate. }
  assert (Hcmp : SFcompare a b = Some Lt \/ SFcompare a b = Some Gt).
  { unfold eq, SFeqb in Hne.
    destruct (SFcompare_not_nan a b) as [[| |] Hc];
      try (destruct a; (reflexivity || discriminate));
      try (destruct b; (reflexivity || discriminate));
      rewrite Hc in Hne; try discriminate; auto. }
  assert (Hrev : SFcompare b a = match SFcompare a b with
                                 | Some c => Some (CompOpp c) | None => None end)
    by apply SFcompare_antisym.
  assert (Hself : forall x, is_finite x = true -> SFcompare x x = Some Eq).
  { intros x Hx. destruct (SFcompare_refl x) as [H | H]; [exact H|].
    destruct x; discriminate. }
  assert (Hmm : (Math_min a b = a /\ Math_max a b = b /\ SFcompare a b = Some Lt /\
                 SFcompare b a = Some Gt) \/
                (Math_min a b = b /\ Math_max a b = a /\ SFcompare a b = Some Gt /\
                 SFcompare b a = Some Lt)).
  { unfold Math_min, Math_max.
    destruct Hcmp as [Hc | Hc]; rewrite Hc in *; cbn [CompOpp] in Hrev; auto. }
  assert (Hca : clamp a (Math_min a b) (Math_max a b) = a).
  { unfold clamp, lt, gt, SFltb.
    destruct Hmm as [(-> & -> & Hc & Hc') | (-> & -> & Hc & Hc')];
      rewrite ?(Hself a Ha), ?Hc, ?Hc'; reflexivity. }
  assert (Hcb : clamp b (Math_min a b) (Math_max a b) = b).
  { unfold clamp, lt, gt, SFltb.
    destruct Hmm as [(-> & -> & Hc & Hc') | (-> & -> & Hc & Hc')];
      rewrite ?(Hself b Hb), ?Hc, ?Hc'; reflexivity. }
  unfold inverseLerp. rewrite Hca, Hcb.
  destruct (b - a)%js as [sd | sd | | sd md ed] eqn:Hd; try discriminate.
  split; [|apply div_self].
  assert (Hz : exists s, (a - a)%js = S754_zero s).
  { destruct a as [sa | sa | | sa ma ea]; try discriminate.
    - destruct sa; cbn; eauto.
    - exists false. unfold sub, SFsub. now rewrite Z.sub_diag. }
  destruct Hz as [s ->]. reflexivity.
Qed.

Lemma inverseLerp_endpoints_witness :
  (inverseLerp (of_int 2) (of_int 10) (of_int 2) === of_int 0)%js = true /\
  inverseLerp (of_int 2) (of_int 10) (of_int 10) = of_int 1.
Proof.
  exact (inverseLerp_endpoints (of_int 2) (of_int 10) eq_refl eq_refl).
Defined.

(** ** repeat, continued *)

(** Rounding a canonical mantissa and exponent gives them back. *)
Lemma binary_round_canon s m e :
  canon m e -> binary_round prec emax s m e = S754_finite s m e.
Proof.
  intros Hc. pose proof Hc as (Hm & He & _).
  destruct (binary_round_exact s m e Hm He) as (m' & e' & -> & Hc' & He' & Hv).
  destruct (canon_unique m' e' m e e' Hc' Hc) as [-> ->]; try lia; [|reflexivity].
  now rewrite Z.sub_diag, Z.mul_1_r.
Qed.

(** X10: A value already strictly between 0 and [length] is returned
    unchanged. *)
Theorem repeat_identity :
  forall t length : number,
    is_double t = true -> is_double length = true ->
    (t > of_int 0)%js = true -> (t < length)%js = true ->
    repeat t length = t.
Proof.
  intros t length Hdt Hdl Hpos Hlt. unfold repeat. rewrite Hpos.
  destruct t as [st | st | | st mn en]; try discriminate;
    destruct st; try discriminate.
  { destruct length as [sl | sl | | sl md ed]; try discriminate;
      destruct sl; discriminate. }
  pose proof (is_double_canon _ _ _ Hdt) as Hct.
  destruct length as [sl | sl | | sl md ed]; try discriminate;
    destruct sl; try discriminate; [reflexivity|].
  pose proof (is_double_canon _ _ _ Hdl) as Hcl.
  apply lt_finite_pos in Hlt.
  assert (Hlt' : en < ed \/ (en = ed /\ Zpos mn < Zpos md)).
  { destruct Hlt as [H | [H1 H2]]; [left; exact H | right].
    split; [exact H1 | exact (Pos2Z.pos_lt_pos _ _ H2)]. }
  clear Hlt. unfold rem.
  assert (He : Z.min en ed = en) by lia. rewrite He, Z.sub_diag.
  change (Z.shiftl (Zpos mn) 0) with (Zpos mn).
  rewrite Z.shiftl_mul_pow2 by lia.
  assert (Hsmall : Zpos mn < Zpos md * 2 ^ (ed - en)).
  { destruct Hlt' as [H | [-> H]].
    - destruct Hct as (Hmn & Hen & _), Hcl as (_ & Hed & [Hmd | Hsub]); [|lia].
      assert (Hp : 2 ^ 1 <= 2 ^ (ed - en)) by (apply Z.pow_le_mono_r; lia).
      change (2 ^ 1) with 2 in Hp.
      change (2 ^ 53) with 9007199254740992 in Hmn.
      change (2 ^ 52) with 4503599627370496 in Hmd. nia.
    - rewrite Z.sub_diag, Z.mul_1_r. exact H. }
  rewrite Z.rem_small by lia. cbn [Z.eqb cond_Zopp binary_normalize].
  now apply binary_round_canon.
Qed.

Lemma repeat_identity_witness : repeat (of_int 3) (of_int 5) = of_int 3.
Proof.
  exact (repeat_identity (of_int 3) (of_int 5) eq_refl eq_refl eq_refl eq_refl).
Defined.

(** ** Signed integers held by numbers *)

Lemma binary_round_opp S e :
  binary_round prec emax true S e = SFopp (binary_round prec emax false S e).
Proof.
  unfold binary_round. destruct (shl_align S e _) as [mz ez].
  unfold binary_round_aux.
  destruct (shr_fexp prec emax (Zpos mz) ez loc_Exact) as [mrs' e'].
  destruct (shr_fexp prec emax _ e' loc_Exact) as [mrs'' e''].
  destruct (shr_m mrs'') as [|p|p]; try reflexivity.
  destruct (e'' <=? emax - prec); reflexivity.
Qed.

Lemma of_int_opp z : of_int (- z) = SFopp (of_int z) \/ z = 0.
Proof.
  destruct z as [|p|p]; [right; reflexivity | left | left].
  - apply binary_round_opp.
  - change (of_int (- Zneg p)) with (binary_round prec emax false p 0).
    change (of_int (Zneg p)) with (binary_round prec emax true p 0).
    rewrite binary_round_opp.
    destruct (binary_round prec emax false p 0) as [[] | [] | | [] ? ?]; reflexivity.
Qed.

(** An integer below [2^53] in magnitude, scaled by a power of two,
    normalises to the number that holds it. *)
Lemma normalize_scaled z k :
  - 2 ^ 53 < z < 2 ^ 53 -> 0 <= k <= 1074 ->
  binary_normalize prec emax (z * 2 ^ k) (- k) false = of_int z.
Proof.
  intros Hz Hk.
  assert (Hpk : 0 < 2 ^ k) by (apply Z.pow_pos_nonneg; lia).
  destruct z as [|q|q].
  - reflexivity.
  - destruct (Zpos q * 2 ^ k) as [|S|S] eqn:HS; try nia.
    cbn [binary_normalize]. replace (- k) with (0 - k) by lia.
    apply (binary_round_value false S q k 0); lia.
  - destruct (Zneg q * 2 ^ k) as [|S|S] eqn:HS; try nia.
    cbn [binary_normalize]. replace (- k) with (0 - k) by lia.
    apply (binary_round_value true S q k 0); lia.
Qed.

(** The aligned mantissa of a number holding a non-zero integer. *)
Lemma of_int_aligned z :
  z <> 0 -> - 2 ^ 53 < z < 2 ^ 53 ->
  exists s m e,
    of_int z = S754_finite s m e /\ -1074 <= e <= 0 /\
    forall ez, ez <= e ->
      cond_Zopp s (Zpos (fst (shl_align m e ez))) = z * 2 ^ (- ez).
Proof.
  intros Hnz Hz.
  assert (Hgen : forall s p, Zpos p < 2 ^ 53 ->
    exists m e, of_int (cond_Zopp s (Zpos p)) = S754_finite s m e /\
      -1074 <= e <= 0 /\
      forall ez, ez <= e ->
        cond_Zopp s (Zpos (fst (shl_align m e ez))) = cond_Zopp s (Zpos p) * 2 ^ (- ez)).
  { intros s p Hp.
    destruct (of_int_finite s p Hp) as (m & e & Hf & (_ & He & _) & He0 & Hv).
    exists m, e. split; [exact Hf|]. split; [lia|].
    intros ez Hez. rewrite (shl_align_value m e ez Hez), Hv.
    rewrite <- Z.mul_assoc, <- Z.pow_add_r by lia.
    replace (- e + (e - ez)) with (- ez) by lia.
    destruct s; cbn [cond_Zopp]; [rewrite Z.mul_opp_l|]; reflexivity. }
  destruct z as [|p|p]; [contradiction | |].
  - destruct (Hgen false p ltac:(lia)) as (m & e & H). exists false, m, e. exact H.
  - destruct (Hgen true p ltac:(lia)) as (m & e & H). exists true, m, e. exact H.
Qed.

(** Sums and differences of integers below [2^52] in magnitude are
    exact. *)
Lemma add_of_int_signed x y :
  - 2 ^ 52 < x < 2 ^ 52 -> - 2 ^ 52 < y < 2 ^ 52 ->
  (of_int x + of_int y)%js = of_int (x + y).
Proof.
  intros Hx Hy. change (2 ^ 52) with 4503599627370496 in *.
  assert (H53 : 2 ^ 53 = 9007199254740992) by reflexivity.
  destruct (Z.eq_dec x 0) as [-> | Hx0].
  { destruct (Z.eq_dec y 0) as [-> | Hy0]; [reflexivity|]. change (0 + y) with y.
    destruct (of_int_aligned y Hy0 ltac:(lia)) as (s & m & e & -> & _). reflexivity. }
  destruct (Z.eq_dec y 0) as [-> | Hy0].
  { rewrite Z.add_0_r.
    destruct (of_int_aligned x Hx0 ltac:(lia)) as (s & m & e & -> & _). reflexivity. }
  destruct (of_int_aligned x Hx0 ltac:(lia)) as (sx & mx & ex & -> & Hex & Hax).
  destruct (of_int_aligned y Hy0 ltac:(lia)) as (sy & my & ey & -> & Hey & Hay).
  unfold add, SFadd. set (ez := Z.min ex ey).
  rewrite (Hax ez), (Hay ez) by (unfold ez; lia).
  rewrite <- Z.mul_add_distr_r.
  replace ez with (- (- ez)) at 2 by lia.
  apply normalize_scaled; unfold ez; lia.
Qed.

Lemma sub_of_int_signed x y :
  - 2 ^ 52 < x < 2 ^ 52 -> - 2 ^ 52 < y < 2 ^ 52 ->
  (of_int x - of_int y)%js = of_int (x - y).
Proof.
  intros Hx Hy. change (2 ^ 52) with 4503599627370496 in *.
  assert (H53 : 2 ^ 53 = 9007199254740992) by reflexivity.
  destruct (Z.eq_dec y 0) as [-> | Hy0].
  { rewrite Z.sub_0_r. destruct (Z.eq_dec x 0) as [-> | Hx0]; [reflexivity|].
    destruct (of_int_aligned x Hx0 ltac:(lia)) as (s & m & e & -> & _). reflexivity. }
  destruct (Z.eq_dec x 0) as [-> | Hx0].
  { destruct (of_int_opp y) as [Ho | ?]; [|contradiction].
    change (0 - y) with (- y). rewrite Ho.
    destruct (of_int_aligned y Hy0 ltac:(lia)) as (s & m & e & -> & _). reflexivity. }
  destruct (of_int_aligned x Hx0 ltac:(lia)) as (sx & mx & ex & -> & Hex & Hax).
  destruct (of_int_aligned y Hy0 ltac:(lia)) as (sy & my & ey & -> & Hey & Hay).
  unfold sub, SFsub. set (ez := Z.min ex ey).
  rewrite (Hax ez), (Hay ez) by (unfold ez; lia).
  rewrite <- Z.mul_sub_distr_r.
  replace ez with (- (- ez)) at 2 by lia.
  apply normalize_scaled; unfold ez; lia.
Qed.

Lemma SFcompare_opp a b : SFcompare (SFopp a) (SFopp b) = SFcompare b a.
Proof.
  rewrite (SFcompare_antisym a b).
  destruct a as [sa | sa | | sa ma ea], b as [sb | sb | | sb mb eb];
    try reflexivity; cbn [SFopp SFcompare];
    try (destruct sa; reflexivity); try (destruct sb; reflexivity);
    try (destruct sa, sb; reflexivity).
  change (Pos.compare_cont Eq ma mb) with (Pos.compare ma mb).
  destruct sa, sb; cbn [negb CompOpp]; try reflexivity;
    destruct (ea ?= eb); cbn [CompOpp]; try reflexivity;
    destruct (ma ?= mb)%positive; reflexivity.
Qed.

(** [<] on numbers holding integers below [2^53] in magnitude. *)
Lemma lt_of_int_signed x y :
  - 2 ^ 53 < x < 2 ^ 53 -> - 2 ^ 53 < y < 2 ^ 53 ->
  (of_int x < of_int y)%js = (x <? y).
Proof.
  intros Hx Hy.
  destruct (Z_lt_le_dec x 0) as [Hxn | Hxp], (Z_lt_le_dec y 0) as [Hyn | Hyp].
  - (* both negative *)
    destruct (of_int_opp (- x)) as [Hox | ?]; [|lia].
    destruct (of_int_opp (- y)) as [Hoy | ?]; [|lia].
    rewrite Z.opp_involutive in Hox, Hoy. rewrite Hox, Hoy.
    unfold lt, SFltb. rewrite SFcompare_opp.
    change ((of_int (- y) < of_int (- x))%js = (x <? y)).
    rewrite (lt_of_int (- y) (- x)) by lia.
    destruct (Z.ltb_spec (- y) (- x)), (Z.ltb_spec x y); (reflexivity || lia).
  - (* x negative, y not *)
    destruct x as [|p|p]; try lia.
    destruct (of_int_finite true p ltac:(lia)) as (m & e & Hf & _).
    change (cond_Zopp true (Zpos p)) with (Zneg p) in Hf. rewrite Hf.
    destruct (Z.ltb_spec (Zneg p) y); [|lia].
    destruct y as [|q|q]; try lia; [reflexivity|].
    destruct (of_int_finite false q ltac:(lia)) as (m' & e' & Hf' & _).
    cbn [cond_Zopp] in Hf'. rewrite Hf'. reflexivity.
  - (* y negative, x not *)
    destruct y as [|q|q]; try lia.
    destruct (of_int_finite true q ltac:(lia)) as (m & e & Hf & _).
    change (cond_Zopp true (Zpos q)) with (Zneg q) in Hf. rewrite Hf.
    destruct (Z.ltb_spec x (Zneg q)); [lia|].
    destruct x as [|p|p]; try lia; [reflexivity|].
    destruct (of_int_finite false p ltac:(lia)) as (m' & e' & Hf' & _).
    cbn [cond_Zopp] in Hf'. rewrite Hf'. reflexivity.
  - apply lt_of_int; lia.
Qed.

(** ** lerpAngle on integer angles *)

Lemma gt_lt a b : (a > b)%js = (b < a)%js.
Proof. reflexivity. Qed.

Lemma angle_small z :
  - 2 ^ 33 <= z <= 2 ^ 33 -> - 2 ^ 52 < z < 2 ^ 52 /\ - 2 ^ 53 < z < 2 ^ 53.
Proof.
  change (2 ^ 33) with 8589934592.
  change (2 ^ 52) with 4503599627370496.
  change (2 ^ 53) with 9007199254740992. lia.
Qed.

Lemma lerpAngle_raise_step fuel a b :
  lerpAngle_raise (S fuel) a b =
  if (a > b + STRAIGHT_ANGLE)%js
  then lerpAngle_raise fuel a (b + FULL_ANGLE)%js else Some b.
Proof. reflexivity. Qed.

Lemma lerpAngle_lower_step fuel a b :
  lerpAngle_lower (S fuel) a b =
  if (b > a + STRAIGHT_ANGLE)%js
  then lerpAngle_lower fuel a (b - FULL_ANGLE)%js else Some b.
Proof. reflexivity. Qed.

Section IntegerAngles.

Variable A : Z.
Hypothesis A_range : - 2 ^ 31 <= A <= 2 ^ 31.

(** The raising loop adds 360 until [b] is within 180 below [a]. *)
Lemma lerpAngle_raise_int n : forall B,
  - 2 ^ 32 <= B <= 2 ^ 32 -> A - B - 180 <= 360 * Z.of_nat n ->
  exists k,
    lerpAngle_raise (S n) (of_int A) (of_int B) = Some (of_int (B + 360 * k)) /\
    0 <= k /\ A <= B + 360 * k + 180 /\ (k = 0 \/ B + 360 * k < A + 180).
Proof.
  change (2 ^ 31) with 2147483648 in A_range.
  induction n as [|n IH]; intros B HB Hn; change (2 ^ 32) with 4294967296 in HB;
    rewrite lerpAngle_raise_step, gt_lt;
    change STRAIGHT_ANGLE with (of_int 180); change FULL_ANGLE with (of_int 360);
    rewrite (add_of_int_signed B 180)
      by (split; apply angle_small; change (2 ^ 33) with 8589934592; lia);
    rewrite (lt_of_int_signed (B + 180) A)
      by (split; apply angle_small; change (2 ^ 33) with 8589934592; lia).
  - destruct (Z.ltb_spec (B + 180) A) as [Hlt | Hge]; [lia|].
    exists 0. rewrite Z.mul_0_r, Z.add_0_r. repeat split; auto; lia.
  - destruct (Z.ltb_spec (B + 180) A) as [Hlt | Hge].
    + rewrite (add_of_int_signed B 360)
        by (split; apply angle_small; change (2 ^ 33) with 8589934592; lia).
      destruct (IH (B + 360)) as (k & Hk & Hk0 & Hup & Hlast);
        [change (2 ^ 32) with 4294967296; lia | lia |].
      exists (k + 1). replace (B + 360 * (k + 1)) with (B + 360 + 360 * k) by lia.
      split; [exact Hk|]. split; [lia|]. split; [lia|]. right.
      destruct Hlast as [-> | H]; lia.
    + exists 0. rewrite Z.mul_0_r, Z.add_0_r. repeat split; auto; lia.
Qed.

(** The lowering loop subtracts 360 until [b] is within 180 above [a]. *)
Lemma lerpAngle_lower_int n : forall B,
  - 2 ^ 32 <= B <= 2 ^ 32 -> B - A - 180 <= 360 * Z.of_nat n ->
  exists k,
    lerpAngle_lower (S n) (of_int A) (of_int B) = Some (of_int (B - 360 * k)) /\
    0 <= k /\ B - 360 * k <= A + 180 /\ (k = 0 \/ A - 180 < B - 360 * k).
Proof.
  change (2 ^ 31) with 2147483648 in A_range.
  induction n as [|n IH]; intros B HB Hn; change (2 ^ 32) with 4294967296 in HB;
    rewrite lerpAngle_lower_step, gt_lt;
    change STRAIGHT_ANGLE with (of_int 180); change FULL_ANGLE with (of_int 360);
    rewrite (add_of_int_signed A 180)
      by (split; apply angle_small; change (2 ^ 33) with 8589934592; lia);
    rewrite (lt_of_int_signed (A + 180) B)
      by (split; apply angle_small; change (2 ^ 33) with 8589934592; lia).
  - destruct (Z.ltb_spec (A + 180) B) as [Hlt | Hge]; [lia|].
    exists 0. rewrite Z.mul_0_r, Z.sub_0_r. repeat split; auto; lia.
  - destruct (Z.ltb_spec (A + 180) B) as [Hlt | Hge].
    + rewrite (sub_of_int_signed B 360)
        by (split; apply angle_small; change (2 ^ 33) with 8589934592; lia).
      destruct (IH (B - 360)) as (k & Hk & Hk0 & Hup & Hlast);
        [change (2 ^ 32) with 4294967296; lia | lia |].
      exists (k + 1). replace (B - 360 * (k + 1)) with (B - 360 - 360 * k) by lia.
      split; [exact Hk|]. split; [lia|]. split; [lia|]. right.
      destruct Hlast as [-> | H]; lia.
    + exists 0. rewrite Z.mul_0_r, Z.sub_0_r. repeat split; auto; lia.
Qed.

End IntegerAngles.

(** X21: On integer angles up to [2^31] in magnitude, [lerpAngle] terminates:
    with enough fuel it returns [lerp(a, r, t)], where [r] differs from
    [b] by a multiple of 360 and from [a] by at most 180. *)
Theorem lerpAngle_integer_angles :
  forall (A B : Z) (t : number),
    - 2 ^ 31 <= A <= 2 ^ 31 -> - 2 ^ 31 <= B <= 2 ^ 31 ->
    exists (fuel : nat) (r k : Z),
      lerpAngle fuel (of_int A) (of_int B) t = Some (lerp (of_int A) (of_int r) t) /\
      r = B + 360 * k /\ Z.abs (r - A) <= 180.
Proof.
  intros A B t HA HB.
  assert (H31 : 2 ^ 31 = 2147483648) by reflexivity.
  assert (H32 : 2 ^ 32 = 4294967296) by reflexivity.
  set (n := Z.to_nat (Z.abs (A - B))).
  destruct (lerpAngle_raise_int A HA n B ltac:(lia) ltac:(unfold n; lia))
    as (k1 & Hraise & Hk1 & Hlow1 & Hlast1).
  destruct (lerpAngle_lower_int A HA n (B + 360 * k1)
              ltac:(destruct Hlast1; lia) ltac:(unfold n; destruct Hlast1; lia))
    as (k2 & Hlower & Hk2 & Hup2 & Hlast2).
  exists (S n), (B + 360 * k1 - 360 * k2), (k1 - k2).
  unfold lerpAngle. rewrite Hraise, Hlower.
  split; [reflexivity|]. split; [lia|]. destruct Hlast2; lia.
Qed.

Lemma lerpAngle_integer_angles_witness :
  exists (fuel : nat) (r k : Z),
    lerpAngle fuel (of_int 350) (of_int 10) (dyadic 1 (-1)) =
      Some (lerp (of_int 350) (of_int r) (dyadic 1 (-1))) /\
    r = 10 + 360 * k /\ Z.abs (r - 350) <= 180.
Proof.
  apply (lerpAngle_integer_angles 350 10 (dyadic 1 (-1))); split; discriminate.
Defined.

(** ** nextPowerOfTwo, continued *)

(** X16: For a positive 32-bit integer, the result is at least the argument
    and less than twice the argument. *)
Theorem nextPowerOfTwo_bounds :
  forall v : Z,
    0 < v < 2 ^ 31 ->
    exists r,
      nextPowerOfTwo (of_int v) = of_int r /\ is_power_of_two r /\
      v <= r < 2 * v.
Proof.
  intros v Hv. exists (2 ^ Z.log2_up v).
  assert (Hint : int32 v) by (unfold int32; lia).
  rewrite nextPowerOfTwo_reading, (ToInt32_of_int v Hint).
  rewrite nextPowerOfTwo_int_pos by assumption.
  split; [reflexivity|].
  split; [exists (Z.log2_up v); split; [apply Z.log2_up_nonneg | reflexivity]|].
  destruct (Z.eq_dec v 1) as [-> | Hne]; [split; [reflexivity | reflexivity]|].
  destruct (Z.log2_up_spec v ltac:(lia)) as [Hlo Hhi].
  split; [exact Hhi|].
  assert (Hj : 0 < Z.log2_up v) by (apply Z.log2_up_pos; lia).
  replace (Z.log2_up v) with (Z.succ (Z.pred (Z.log2_up v))) at 1 by lia.
  rewrite Z.pow_succ_r by lia. lia.
Qed.

Lemma nextPowerOfTwo_bounds_witness :
  exists r,
    nextPowerOfTwo (of_int 100) = of_int r /\ is_power_of_two r /\
    100 <= r < 2 * 100.
Proof. apply (nextPowerOfTwo_bounds 100). split; reflexivity. Defined.

(** ** deltaAngle, continued *)

(** X14: Exchanging the two angles keeps the magnitude of the difference. *)
Theorem deltaAngle_abs_sym :
  forall current target : number,
    Math_abs (deltaAngle current target) = Math_abs (deltaAngle target current).
Proof.
  intros current target. unfold deltaAngle. cbv zeta. apply abs_sub_comm.
Qed.

(** ** round on half-integers *)

Lemma eq_refl_finite x : is_finite x = true -> (x === x)%js = true.
Proof.
  intros Hx. unfold eq, SFeqb. destruct (SFcompare_refl x) as [-> | H];
    [reflexivity | destruct x; discriminate].
Qed.

(** The double [h / 2], for an integer [h] below [2^53] in magnitude, and
    its mantissa aligned to a lower exponent. *)
Lemma dyadic_half_aligned h :
  h <> 0 -> - 2 ^ 53 < h < 2 ^ 53 ->
  exists s m e,
    dyadic h (-1) = S754_finite s m e /\ -1074 <= e <= -1 /\
    cond_Zopp s (Zpos m) = h * 2 ^ (-1 - e) /\
    forall ez, ez <= e ->
      cond_Zopp s (Zpos (fst (shl_align m e ez))) = h * 2 ^ (-1 - ez).
Proof.
  intros Hnz Hh.
  assert (Hgen : forall s p, Zpos p < 2 ^ 53 ->
    exists m e, dyadic (cond_Zopp s (Zpos p)) (-1) = S754_finite s m e /\
      -1074 <= e <= -1 /\
      cond_Zopp s (Zpos m) = cond_Zopp s (Zpos p) * 2 ^ (-1 - e) /\
      forall ez, ez <= e ->
        cond_Zopp s (Zpos (fst (shl_align m e ez))) =
        cond_Zopp s (Zpos p) * 2 ^ (-1 - ez)).
  { intros s p Hp.
    assert (Hd : dyadic (cond_Zopp s (Zpos p)) (-1) = binary_round prec emax s p (-1))
      by (destruct s; reflexivity).
    destruct (binary_round_exact s p (-1) Hp ltac:(lia))
      as (m & e & Hr & (_ & He & _) & He1 & Hv).
    exists m, e. rewrite Hd, Hr. split; [reflexivity|]. split; [lia|]. split.
    - rewrite Hv. destruct s; cbn [cond_Zopp]; [rewrite Z.mul_opp_l|]; reflexivity.
    - intros ez Hez. rewrite (shl_align_value m e ez Hez), Hv.
      rewrite <- Z.mul_assoc, <- Z.pow_add_r by lia.
      replace (-1 - e + (e - ez)) with (-1 - ez) by lia.
      destruct s; cbn [cond_Zopp]; [rewrite Z.mul_opp_l|]; reflexivity. }
  destruct h as [|p|p]; [contradiction | |].
  - destruct (Hgen false p ltac:(lia)) as (m & e & H). exists false, m, e. exact H.
  - destruct (Hgen true p ltac:(lia)) as (m & e & H). exists true, m, e. exact H.
Qed.

(** [(2k+1)/2 + 1/2 == k+1] and [(2k+1)/2 - 1/2 == k], exactly. *)
Lemma half_add_sub k :
  - 2 ^ 51 < k < 2 ^ 51 ->
  (dyadic (2 * k + 1) (-1) + IS_INTEGER)%js = of_int (k + 1) /\
  (dyadic (2 * k + 1) (-1) - IS_INTEGER)%js = of_int k.
Proof.
  intros Hk. change (2 ^ 51) with 2251799813685248 in Hk.
  assert (H53 : 2 ^ 53 = 9007199254740992) by reflexivity.
  destruct (dyadic_half_aligned (2 * k + 1) ltac:(lia) ltac:(lia))
    as (s & m & e & -> & He & _ & Ha).
  change IS_INTEGER with (S754_finite false 4503599627370496 (-53)).
  assert (Hhalf : forall ez, ez <= -53 ->
            Zpos (fst (shl_align 4503599627370496 (-53) ez)) = 2 ^ (-1 - ez)).
  { intros ez Hez. rewrite shl_align_value by assumption.
    change (Zpos 4503599627370496) with (2 ^ 52).
    rewrite <- Z.pow_add_r by lia. f_equal. lia. }
  set (ez := Z.min e (-53)).
  assert (Hez : ez <= e /\ ez <= -53 /\ -1074 <= ez) by (unfold ez; lia).
  assert (Hp : 2 ^ (- ez) = 2 * 2 ^ (-1 - ez)).
  { replace (- ez) with (1 + (-1 - ez)) by lia. now rewrite Z.pow_add_r by lia. }
  split.
  - unfold add, SFadd. fold ez. rewrite (Ha ez), (Hhalf ez) by lia.
    cbn [cond_Zopp].
    replace ((2 * k + 1) * 2 ^ (-1 - ez) + 2 ^ (-1 - ez))
      with ((k + 1) * 2 ^ (- ez)) by (rewrite Hp; ring).
    replace ez with (- (- ez)) at 2 by lia.
    apply normalize_scaled; lia.
  - unfold sub, SFsub. fold ez. rewrite (Ha ez), (Hhalf ez) by lia.
    cbn [cond_Zopp].
    replace ((2 * k + 1) * 2 ^ (-1 - ez) - 2 ^ (-1 - ez))
      with (k * 2 ^ (- ez)) by (rewrite Hp; ring).
    replace ez with (- (- ez)) at 2 by lia.
    apply normalize_scaled; lia.
Qed.

(** [Math.ceil((2k+1)/2)] is [k+1], or a zero when [k+1] is 0. *)
Lemma ceil_half k :
  - 2 ^ 51 < k < 2 ^ 51 ->
  (of_int (k + 1) === Math_ceil (dyadic (2 * k + 1) (-1)))%js = true.
Proof.
  intros Hk. change (2 ^ 51) with 2251799813685248 in Hk.
  assert (H53 : 2 ^ 53 = 9007199254740992) by reflexivity.
  destruct (dyadic_half_aligned (2 * k + 1) ltac:(lia) ltac:(lia))
    as (s & m & e & -> & He & Hv & _).
  destruct e as [|pe|pe]; try lia. unfold Math_ceil. cbv zeta.
  rewrite Hv, Z.shiftr_div_pow2 by lia.
  set (P := 2 ^ (-1 - Zneg pe)).
  assert (HP : 0 < P) by (unfold P; apply Z.pow_pos_nonneg; lia).
  assert (H2 : 2 ^ Zpos pe = 2 * P).
  { unfold P. replace (Zpos pe) with (1 + (-1 - Zneg pe)) at 1 by lia.
    now rewrite Z.pow_add_r by lia. }
  rewrite H2.
  replace (- ((2 * k + 1) * P)) with ((- (2 * k + 1)) * P) by ring.
  rewrite Z.div_mul_cancel_r by lia.
  replace (- (2 * k + 1) / 2) with (- (k + 1))
    by (apply Z.div_unique with 1; lia).
  rewrite Z.opp_involutive.
  destruct (Z.eqb_spec (k + 1) 0) as [-> | Hnz]; [destruct s; reflexivity|].
  apply eq_refl_finite.
  destruct (of_int_aligned (k + 1) Hnz ltac:(lia)) as (s' & m' & e' & -> & _).
  reflexivity.
Qed.

(** The parity test [n % 2 === 0] on numbers holding integers. *)
Lemma rem_2_of_int n :
  - 2 ^ 53 < n < 2 ^ 53 ->
  ((of_int n mod of_int 2) === of_int 0)%js = Z.even n.
Proof.
  intros Hn.
  assert (Hgen : forall s p, Zpos p < 2 ^ 53 ->
    ((of_int (cond_Zopp s (Zpos p)) mod of_int 2) === of_int 0)%js = Z.even (Zpos p)).
  { intros s p Hp.
    destruct (of_int_finite s p Hp) as (m & e & -> & (_ & He & _) & He0 & Hv).
    change (of_int 2) with (S754_finite false 4503599627370496 (-51)).
    unfold rem. set (e0 := Z.min e (-51)).
    assert (He0' : e0 <= e /\ e0 <= -51 /\ -1074 <= e0) by (unfold e0; lia).
    rewrite !Z.shiftl_mul_pow2 by lia. rewrite Hv.
    change (Zpos 4503599627370496) with (2 ^ 52).
    rewrite <- Z.mul_assoc, <- !Z.pow_add_r by lia.
    replace (- e + (e - e0)) with (- e0) by lia.
    replace (52 + (-51 - e0)) with (1 + - e0) by lia.
    rewrite (Z.pow_add_r 2 1) by lia. change (2 ^ 1) with 2.
    assert (Hpk : 0 < 2 ^ (- e0)) by (apply Z.pow_pos_nonneg; lia).
    rewrite Z.rem_mod_nonneg by nia.
    rewrite Z.mul_mod_distr_r by lia.
    rewrite Zeven_mod.
    destruct (Z.eqb_spec (Zpos p mod 2) 0) as [Hz | Hnz].
    - rewrite Hz, Z.mul_0_l. cbn [Z.eqb]. destruct s; reflexivity.
    - assert (H1 : Zpos p mod 2 = 1)
        by (pose proof (Z.mod_pos_bound (Zpos p) 2 eq_refl); lia).
      rewrite H1, Z.mul_1_l.
      destruct (Z.eqb_spec (2 ^ (- e0)) 0) as [|_]; [lia|].
      replace (cond_Zopp s (2 ^ (- e0))) with (cond_Zopp s 1 * 2 ^ (- e0))
        by (destruct s; cbn [cond_Zopp]; lia).
      replace e0 with (- (- e0)) at 2 by lia.
      rewrite normalize_scaled by (destruct s; cbn [cond_Zopp]; lia).
      destruct s; reflexivity. }
  destruct n as [|p|p].
  - reflexivity.
  - apply (Hgen false p). lia.
  - apply (Hgen true p). lia.
Qed.

(** X15: A half-integer is rounded to its even neighbour: [round(k + 0.5)] is
    [k + 1] when [k + 1] is even and [k] otherwise. *)
Theorem round_half_even :
  forall k : Z,
    - 2 ^ 51 < k < 2 ^ 51 ->
    round (dyadic (2 * k + 1) (-1)) =
      (if Z.even (k + 1) then of_int (k + 1) else of_int k).
Proof.
  intros k Hk. unfold round. cbv zeta.
  destruct (half_add_sub k Hk) as [Hadd Hsub].
  rewrite Hadd, (ceil_half k Hk), Hsub.
  rewrite rem_2_of_int; [reflexivity|].
  change (2 ^ 51) with 2251799813685248 in Hk.
  change (2 ^ 53) with 9007199254740992. lia.
Qed.

Lemma round_half_even_witness :
  round (dyadic (2 * 2 + 1) (-1)) = (if Z.even (2 + 1) then of_int (2 + 1) else of_int 2).
Proof. apply (round_half_even 2). split; reflexivity. Defined.
